(** * sam206: a vector of ages driven through iterators

    Shallow embedding of [src/main.cpp] (the helpers [display] and
    [populate_vector] and the driver [main]) together with the part of the
    C++ standard library the program calls: [std::vector<int>], its
    iterators, the [<algorithm>] searches and counts, and [std::cout].

    - A [vector<int>] is a [list Z]; an iterator into it is the index of
      the element it points at, [end()] being the length.
    - [std::cout] is the text written so far.
    - Operations the standard leaves undefined (dereferencing [end()],
      erasing at a position that holds no element, signed overflow) return
      [Undefined]; [vector::at] out of range returns [OutOfRange], the
      exception nobody catches.
    - Loops run on fuel; [OutOfFuel] is the only outcome that does not
      exist in C++, and the theorems show it is not reached. *)

From Stdlib Require Import ZArith List String Ascii Bool Arith Lia Permutation.
From Stdlib Require Import DecimalString.
From Stdlib Require DecimalPos DecimalZ.
Import ListNotations.

Local Open Scope Z_scope.

(* ------------------------------------------------------------------ *)
(** ** Outcomes and the output stream *)

Inductive result (A : Type) : Type :=
| Ok (a : A)
| OutOfRange
| Undefined
| OutOfFuel.

Arguments Ok {A} a.
Arguments OutOfRange {A}.
Arguments Undefined {A}.
Arguments OutOfFuel {A}.

Definition rbind {A B : Type} (r : result A) (k : A -> result B) : result B :=
  match r with
  | Ok a => k a
  | OutOfRange => OutOfRange
  | Undefined => Undefined
  | OutOfFuel => OutOfFuel
  end.

Notation "x <-- r ;; k" := (rbind r (fun x => k))
  (at level 61, r at next level, right associativity).

(** The characters written to [std::cout] so far. *)
Definition ostream : Type := string.

(** A statement that may write to [std::cout] and may fail. *)
Definition M (A : Type) : Type := ostream -> result (A * ostream).

Definition ret {A : Type} (a : A) : M A := fun out => Ok (a, out).

Definition bind {A B : Type} (c : M A) (k : A -> M B) : M B :=
  fun out =>
    match c out with
    | Ok (a, out') => k a out'
    | OutOfRange => OutOfRange
    | Undefined => Undefined
    | OutOfFuel => OutOfFuel
    end.

Definition lift {A : Type} (r : result A) : M A :=
  fun out => rbind r (fun a => Ok (a, out)).

Notation "x <- c ;; k" := (bind c (fun x => k))
  (at level 61, c at next level, right associativity).
Notation "c ;; k" := (bind c (fun _ => k))
  (at level 61, right associativity).
Notation "x <~ r ;; k" := (bind (lift r) (fun x => k))
  (at level 61, r at next level, right associativity).

(** [cout << s] for a string literal. *)
Definition put (s : string) : M unit := fun out => Ok (tt, (out ++ s)%string).

Definition nl : string := String (ascii_of_nat 10) EmptyString.

(** [cout << endl] and [cout << '\n'] both write one newline. *)
Definition endl : M unit := put nl.

(** Decimal text of an [int], as [operator<<] prints it. *)
Definition string_of_Z (z : Z) : string := NilZero.string_of_int (Z.to_int z).

(** [cout << n] for an [int]. *)
Definition put_int (n : Z) : M unit := put (string_of_Z n).

(* ------------------------------------------------------------------ *)
(** ** Machine integers

    The source names no target. The widths are those of the LP64 data
    model (x86-64 and AArch64 under Linux and macOS): [int] has 32 bits,
    [std::size_t] and [std::ptrdiff_t] have 64. *)

Definition INT_MIN : Z := -2147483648.
Definition INT_MAX : Z := 2147483647.
Definition SIZE_MODULUS : Z := 2 ^ 64.

(** Conversion of an [int] to [size_t] (modulo 2^64), as in the comparison
    [i < vector_ref.size()] and in the argument of [at]. *)
Definition size_t_of_int (i : Z) : Z := i mod SIZE_MODULUS.

(** [i++] on an [int]; overflow is undefined. *)
Definition int_succ (i : Z) : result Z :=
  if i <? INT_MAX then Ok (i + 1) else Undefined.

(** Conversion of a [ptrdiff_t] count to [int]: reduction modulo 2^32 into
    the signed range. *)
Definition int_of_ptrdiff (d : Z) : Z :=
  (d - INT_MIN) mod (2 ^ 32) + INT_MIN.

(** [a % b] on [int] truncates towards zero. *)
Definition int_rem (a b : Z) : Z := Z.rem a b.

(* ------------------------------------------------------------------ *)
(** ** [std::vector<int>] and its iterators *)

Module Vector.

Definition t : Type := list Z.
Definition iterator : Type := nat.

Definition size (v : t) : Z := Z.of_nat (List.length v).
Definition empty (v : t) : bool := match v with [] => true | _ :: _ => false end.

Definition begin_ (v : t) : iterator := O.
Definition end_ (v : t) : iterator := List.length v.

Definition clear (v : t) : t := [].
Definition push_back (v : t) (x : Z) : t := (v ++ [x])%list.

(** [v.at(n)]: bounds-checked access, throws [std::out_of_range]. *)
Definition at_ (v : t) (n : Z) : result Z :=
  if n <? size v then
    match nth_error v (Z.to_nat n) with
    | Some x => Ok x
    | None => OutOfRange
    end
  else OutOfRange.

(** [*it]: only an iterator that points at an element may be
    dereferenced. *)
Definition deref (v : t) (it : iterator) : result Z :=
  match nth_error v it with
  | Some x => Ok x
  | None => Undefined
  end.

(** [++it] and [it++]: the iterator must point at an element. *)
Definition incr (v : t) (it : iterator) : result iterator :=
  if (it <? List.length v)%nat then Ok (S it) else Undefined.

(** [it + n]: the result must not lie beyond [end()]. *)
Definition advance (v : t) (it : iterator) (n : nat) : result iterator :=
  if (it + n <=? List.length v)%nat then Ok (it + n)%nat else Undefined.

(** [v.pop_back()]: undefined on an empty vector. *)
Fixpoint pop_back (v : t) : result t :=
  match v with
  | [] => Undefined
  | [_] => Ok []
  | x :: rest => rest' <-- pop_back rest ;; Ok (x :: rest')
  end.

(** The elements of [v] once the one at position [it] is gone. *)
Fixpoint erase_elements (v : t) (it : iterator) : result t :=
  match v, it with
  | [], _ => Undefined
  | _ :: rest, O => Ok rest
  | x :: rest, S it' => rest' <-- erase_elements rest it' ;; Ok (x :: rest')
  end.

(** [v.erase(it)]: removes the element [it] points at and returns the
    iterator to the element that followed it, which now sits at the
    same position. Undefined when [it] points at no element. *)
Definition erase (v : t) (it : iterator) : result (t * iterator) :=
  v' <-- erase_elements v it ;; Ok (v', it).

(** [a == b]: equal sizes, then [std::equal] over the first range. *)
Fixpoint equal (a b : t) : bool :=
  match a, b with
  | [], _ => true
  | x :: a', y :: b' => if x =? y then equal a' b' else false
  | _ :: _, [] => false
  end.

Definition eqb (a b : t) : bool :=
  if size a =? size b then equal a b else false.

End Vector.

(* ------------------------------------------------------------------ *)
(** ** [src/main.cpp]: the two helpers *)

(** [populate_vector], lines 238-245. *)
Definition populate_vector (vect : Vector.t) : Vector.t :=
  let vect := Vector.clear vect in
  let vect := Vector.push_back vect 18 in
  let vect := Vector.push_back vect 17 in
  let vect := Vector.push_back vect 21 in
  let vect := Vector.push_back vect 18 in
  let vect := Vector.push_back vect 21 in
  vect.

(** The [for] loop of [display], lines 228-234, entered with counter [i]. *)
Fixpoint display_loop (fuel : nat) (vector_ref : Vector.t) (i : Z) : M unit :=
  match fuel with
  | O => fun _ => OutOfFuel
  | S fuel' =>
      if size_t_of_int i <? Vector.size vector_ref then
        (if negb (i =? 0) then put "," else ret tt) ;;
        x <~ Vector.at_ vector_ref (size_t_of_int i) ;;
        put_int x ;;
        i' <~ int_succ i ;;
        display_loop fuel' vector_ref i'
      else ret tt
  end.

(** [display], lines 226-236. *)
Definition display (fuel : nat) (vector_ref : Vector.t) : M unit :=
  display_loop fuel vector_ref 0 ;;
  endl.

(* ------------------------------------------------------------------ *)
(** ** [<algorithm>]

    Each algorithm walks the range [first, last) from left to right; the
    range is given by the elements it holds, and an iterator result is the
    position in it (the length of the range standing for [last]). The
    driver always passes the whole vector. *)

Module Algorithm.

(** [std::count]: [ret] is the running total. *)
Fixpoint count_from (ret : Z) (range : list Z) (value : Z) : Z :=
  match range with
  | [] => ret
  | x :: rest => count_from (if x =? value then ret + 1 else ret) rest value
  end.

Definition count (range : list Z) (value : Z) : Z := count_from 0 range value.

(** [std::count_if]. *)
Fixpoint count_if_from (ret : Z) (range : list Z) (p : Z -> bool) : Z :=
  match range with
  | [] => ret
  | x :: rest => count_if_from (if p x then ret + 1 else ret) rest p
  end.

Definition count_if (range : list Z) (p : Z -> bool) : Z := count_if_from 0 range p.

(** [std::find_if], entered with the iterator [first]. *)
Fixpoint find_if_from (first : nat) (range : list Z) (p : Z -> bool) : nat :=
  match range with
  | [] => first
  | x :: rest => if p x then first else find_if_from (S first) rest p
  end.

Definition find_if (range : list Z) (p : Z -> bool) : nat := find_if_from O range p.

(** [std::find_if_not]. *)
Definition find_if_not (range : list Z) (p : Z -> bool) : nat :=
  find_if range (fun x => negb (p x)).

(** [std::find]. *)
Definition find (range : list Z) (value : Z) : nat :=
  find_if range (fun x => x =? value).

(** [std::all_of]: no element fails the predicate. *)
Definition all_of (range : list Z) (p : Z -> bool) : bool :=
  (find_if_not range p =? List.length range)%nat.

(** [std::none_of]: no element passes the predicate. *)
Definition none_of (range : list Z) (p : Z -> bool) : bool :=
  (find_if range p =? List.length range)%nat.

End Algorithm.

(* ------------------------------------------------------------------ *)
(** ** [src/main.cpp]: the driver, block by block *)

(** Lines 34-43: banner, fresh vector, populate, display. *)
Definition main_populate (fuel : nat) : M Vector.t :=
  put "sam206 - vector - using Iterators" ;; endl ;;
  let ages_vector : Vector.t := [] in
  let ages_vector := populate_vector ages_vector in
  display fuel ages_vector ;;
  ret ages_vector.

(** Lines 55-70: dereference [begin()], step once, dereference again. *)
Definition main_iterator (ages_vector : Vector.t) : M unit :=
  let iter := Vector.begin_ ages_vector in
  first <~ Vector.deref ages_vector iter ;;
  put "Dereferencing the Iterator to get first element in vector, value = " ;;
  put_int first ;; endl ;;
  iter <~ Vector.incr ages_vector iter ;;
  second <~ Vector.deref ages_vector iter ;;
  put "Increment by one (iter++;) Dereferencing the Iterator to get value = " ;;
  put_int second ;; endl.

(** The [for] loop of lines 81-83, entered with iterator [iter]. *)
Fixpoint print_loop (fuel : nat) (ages_vector : Vector.t) (iter : Vector.iterator)
  : M unit :=
  match fuel with
  | O => fun _ => OutOfFuel
  | S fuel' =>
      if negb (iter =? Vector.end_ ages_vector)%nat then
        x <~ Vector.deref ages_vector iter ;;
        put_int x ;; put ", " ;;
        iter' <~ Vector.incr ages_vector iter ;;
        print_loop fuel' ages_vector iter'
      else ret tt
  end.

(** Lines 80-84. *)
Definition main_for_print (fuel : nat) (ages_vector : Vector.t) : M unit :=
  put "Output vector elements using for loop and iterator : " ;;
  print_loop fuel ages_vector (Vector.begin_ ages_vector) ;;
  endl.

(** Lines 96-113: [count] and [count_if]. *)
Definition main_counts (ages_vector : Vector.t) : M unit :=
  let age := 21 in
  let num_items := int_of_ptrdiff (Algorithm.count ages_vector age) in
  put "Count of students aged " ;; put_int age ;; put " = " ;;
  put_int num_items ;; endl ;;
  let count_under18 :=
    int_of_ptrdiff (Algorithm.count_if ages_vector (fun i => i <? 18)) in
  put "Count of students aged under 18 = " ;; put_int count_under18 ;; put nl.

(** Lines 116-119: guarded [pop_back]. *)
Definition main_pop_back (ages_vector : Vector.t) : M Vector.t :=
  if negb (Vector.empty ages_vector)
  then lift (Vector.pop_back ages_vector)
  else ret ages_vector.

(** Lines 127-131: erase the third element. *)
Definition main_erase_third (fuel : nat) (ages_vector : Vector.t) : M Vector.t :=
  put "Vector content before erasing the third element" ;; endl ;;
  display fuel ages_vector ;;
  pos <~ Vector.advance ages_vector (Vector.begin_ ages_vector) 2 ;;
  erased <~ Vector.erase ages_vector pos ;;
  let ages_vector := fst erased in
  put "Vector content AFTER erasing the third element" ;; endl ;;
  display fuel ages_vector ;;
  ret ages_vector.

(** Lines 134-136 and 158-160: repopulate and display. *)
Definition main_repopulate (fuel : nat) (ages_vector : Vector.t) : M Vector.t :=
  put "Re-populating vector:" ;;
  let ages_vector := populate_vector ages_vector in
  display fuel ages_vector ;;
  ret ages_vector.

(** The body of the loop of lines 148-154, at an iterator that is not
    [end()]: the vector and the iterator it leaves behind. *)
Definition remove_even_body (ages_vector : Vector.t) (iter : Vector.iterator)
  : result (Vector.t * Vector.iterator) :=
  x <-- Vector.deref ages_vector iter ;;
  if int_rem x 2 =? 0 then
    Vector.erase ages_vector iter
  else
    iter' <-- Vector.incr ages_vector iter ;;
    Ok (ages_vector, iter').

(** The loop of lines 148-154, entered with iterator [iter]. *)
Fixpoint remove_even_loop (fuel : nat) (ages_vector : Vector.t)
  (iter : Vector.iterator) : result Vector.t :=
  match fuel with
  | O => OutOfFuel
  | S fuel' =>
      if negb (iter =? Vector.end_ ages_vector)%nat then
        next <-- remove_even_body ages_vector iter ;;
        remove_even_loop fuel' (fst next) (snd next)
      else Ok ages_vector
  end.

Definition remove_even (fuel : nat) (ages_vector : Vector.t) : result Vector.t :=
  remove_even_loop fuel ages_vector (Vector.begin_ ages_vector).

(** Lines 147-156. *)
Definition main_remove_even (fuel : nat) (ages_vector : Vector.t) : M Vector.t :=
  put "Iterating over vector to remove even elements" ;; endl ;;
  ages_vector <~ remove_even fuel ages_vector ;;
  put "After removal of even elements vector contains : " ;;
  display fuel ages_vector ;;
  ret ages_vector.

(** Lines 170-179: [all_of] and [none_of]. *)
Definition main_all_none (ages_vector : Vector.t) : M unit :=
  (if Algorithm.all_of ages_vector (fun i => i >? 16)
   then put "all_of() : All values in ages_vector are greater than 16" ;; put nl
   else put "all_of() : One or more values are not greater than 16" ;; endl) ;;
  (if Algorithm.none_of ages_vector (fun i => i <? 17)
   then put "none_of() : None of the values in vector are less than 17" ;; put nl
   else put "none_of() : One or more values are less than 17" ;; endl).

(** Lines 186-194: [find]. *)
Definition main_find (ages_vector : Vector.t) : M unit :=
  put "Using find() to find value 17 in the vector." ;; endl ;;
  let result_iter1 := Algorithm.find ages_vector 17 in
  if negb (result_iter1 =? Vector.end_ ages_vector)%nat
  then put "Found at least one value 17" ;; put nl
  else put "NO value 17 in vector " ;; endl.

(** Lines 199-203: [find_if] with the [is_even] lambda. *)
Definition main_find_if (ages_vector : Vector.t) : M unit :=
  let is_even := fun i => int_rem i 2 =? 0 in
  let result_iter2 := Algorithm.find_if ages_vector is_even in
  if negb (result_iter2 =? Vector.end_ ages_vector)%nat
  then put " found one value that satisfied the is_even lambda expression " ;; put nl
  else put "NO even values found" ;; endl.

(** Lines 210-216: the two lotto vectors. The literal [02] is octal two. *)
Definition lottoDraw : Vector.t := [2; 10; 13; 22; 35; 47].
Definition myNumbers : Vector.t := [2; 10; 13; 22; 35; 47].

Definition main_lotto : M unit :=
  if Vector.eqb lottoDraw myNumbers
  then put "Horray, I have won the lotto" ;; endl
  else put "No luck today" ;; endl.

(** Lines 34-119: the run up to and including the guarded [pop_back]. *)
Definition main_first_half (fuel : nat) : M Vector.t :=
  ages_vector <- main_populate fuel ;;
  main_iterator ages_vector ;;
  main_for_print fuel ages_vector ;;
  main_counts ages_vector ;;
  main_pop_back ages_vector.

(** [main], lines 32-219. *)
Definition main (fuel : nat) : M unit :=
  ages_vector <- main_first_half fuel ;;
  ages_vector <- main_erase_third fuel ages_vector ;;
  ages_vector <- main_repopulate fuel ages_vector ;;
  ages_vector <- main_remove_even fuel ages_vector ;;
  ages_vector <- main_repopulate fuel ages_vector ;;
  main_all_none ages_vector ;;
  main_find ages_vector ;;
  main_find_if ages_vector ;;
  main_lotto ;;
  put "Program finished - goodbye." ;; endl.

(* ------------------------------------------------------------------ *)
(** ** The specification's own notions *)

(** The elements in order, separated by [","], nothing before the first
    and nothing after the last. *)
Definition comma_separated (v : Vector.t) : string :=
  String.concat "," (map string_of_Z v).

(** A sequence with its even-valued elements removed. *)
Definition odd_elements (v : Vector.t) : Vector.t :=
  filter (fun x => negb (Z.even x)) v.

(* ------------------------------------------------------------------ *)
(** ** The texts the loops write *)

(** The text the loop of [display] still has to write once it stands
    after the first element. *)
Fixpoint comma_led (l : list Z) : string :=
  match l with
  | [] => ""
  | x :: rest => ("," ++ string_of_Z x ++ comma_led rest)%string
  end.

(** What the loop of lines 81-83 writes for the elements still ahead. *)
Fixpoint comma_trailed (l : list Z) : string :=
  match l with
  | [] => ""
  | x :: rest => (string_of_Z x ++ ", " ++ comma_trailed rest)%string
  end.

(** The console transcript of a full run. *)
Definition transcript : string :=
  String.concat nl
    [ "sam206 - vector - using Iterators";
      "18,17,21,18,21";
      "Dereferencing the Iterator to get first element in vector, value = 18";
      "Increment by one (iter++;) Dereferencing the Iterator to get value = 17";
      "Output vector elements using for loop and iterator : 18, 17, 21, 18, 21, ";
      "Count of students aged 21 = 2";
      "Count of students aged under 18 = 1";
      "Vector content before erasing the third element";
      "18,17,21,18";
      "Vector content AFTER erasing the third element";
      "18,17,18";
      "Re-populating vector:18,17,21,18,21";
      "Iterating over vector to remove even elements";
      "After removal of even elements vector contains : 17,21,21";
      "Re-populating vector:18,17,21,18,21";
      "all_of() : All values in ages_vector are greater than 16";
      "none_of() : None of the values in vector are less than 17";
      "Using find() to find value 17 in the vector.";
      "Found at least one value 17";
      " found one value that satisfied the is_even lambda expression ";
      "Horray, I have won the lotto";
      "Program finished - goodbye.";
      "" ]%string.

(** The transcript up to the guarded [pop_back]. *)
Definition transcript_first_half : string :=
  String.concat nl
    [ "sam206 - vector - using Iterators";
      "18,17,21,18,21";
      "Dereferencing the Iterator to get first element in vector, value = 18";
      "Increment by one (iter++;) Dereferencing the Iterator to get value = 17";
      "Output vector elements using for loop and iterator : 18, 17, 21, 18, 21, ";
      "Count of students aged 21 = 2";
      "Count of students aged under 18 = 1";
      "" ]%string.

(* ------------------------------------------------------------------ *)
(** ** Notions for the properties beyond the claims *)

(** The [is_even] lambda of line 199. *)
Definition is_even (i : Z) : bool := int_rem i 2 =? 0.

(** The characters [operator<<] writes for an [int]: the ten digits and
    the minus sign. *)
Definition number_char (c : ascii) : bool :=
  match c with
  | "0" | "1" | "2" | "3" | "4" | "5" | "6" | "7" | "8" | "9" | "-" => true
  | _ => false
  end%char.

Fixpoint all_chars (p : ascii -> bool) (s : string) : bool :=
  match s with
  | EmptyString => true
  | String c rest => if p c then all_chars p rest else false
  end.

(** A text that cannot continue a number: it is empty or starts with a
    character no number holds. *)
Definition breaks_number (s : string) : bool :=
  match s with
  | EmptyString => true
  | String c _ => negb (number_char c)
  end.

(* ------------------------------------------------------------------ *)
(** ** Strings *)

Lemma append_assoc (a b c : string) :
  ((a ++ b) ++ c)%string = (a ++ b ++ c)%string.
Proof.
  induction a as [|ch a IH]; simpl; [reflexivity | now rewrite IH].
Qed.

Lemma append_empty_r (a : string) : (a ++ "")%string = a.
Proof.
  induction a as [|ch a IH]; simpl; [reflexivity | now rewrite IH].
Qed.

Lemma comma_separated_cons (x : Z) (rest : list Z) :
  comma_separated (x :: rest) = (string_of_Z x ++ comma_led rest)%string.
Proof.
  unfold comma_separated. revert x.
  induction rest as [|y rest IH]; intro x.
  - simpl. now rewrite append_empty_r.
  - change (map string_of_Z (x :: y :: rest))
      with (string_of_Z x :: map string_of_Z (y :: rest)).
    change (String.concat "," (string_of_Z x :: map string_of_Z (y :: rest)))
      with (string_of_Z x ++ "," ++ String.concat "," (map string_of_Z (y :: rest)))%string.
    rewrite IH. reflexivity.
Qed.

(* ------------------------------------------------------------------ *)
(** ** [populate_vector] *)

Lemma populate_vector_eq (vect : Vector.t) :
  populate_vector vect = [18; 17; 21; 18; 21].
Proof. reflexivity. Qed.

(* ------------------------------------------------------------------ *)
(** ** [display] *)

Lemma size_t_of_int_small (i : Z) :
  0 <= i <= INT_MAX -> size_t_of_int i = i.
Proof.
  intro H. unfold size_t_of_int, SIZE_MODULUS, INT_MAX in *.
  apply Z.mod_small. change (2 ^ 64) with 18446744073709551616. lia.
Qed.

Lemma at_app_middle (pre suf : list Z) (x : Z) :
  Vector.at_ (pre ++ x :: suf) (Z.of_nat (List.length pre)) = Ok x.
Proof.
  unfold Vector.at_, Vector.size.
  rewrite length_app. simpl List.length.
  destruct (Z.ltb_spec (Z.of_nat (List.length pre))
              (Z.of_nat (List.length pre + S (List.length suf)))) as [_|H]; [|lia].
  rewrite Nat2Z.id, nth_error_app2 by lia.
  now rewrite Nat.sub_diag.
Qed.

(** Once the counter stands at the end of [pre], the loop writes the rest
    of the vector, each element led by a comma unless it is the first. *)
Lemma display_loop_from (suf pre : list Z) :
  forall (fuel : nat) (out : ostream),
    (List.length suf < fuel)%nat ->
    Vector.size (pre ++ suf) <= INT_MAX ->
    display_loop fuel (pre ++ suf) (Z.of_nat (List.length pre)) out
    = Ok (tt, (out ++ match pre with
                      | [] => comma_separated suf
                      | _ :: _ => comma_led suf
                      end)%string).
Proof.
  revert pre.
  induction suf as [|x suf IH]; intros pre fuel out Hfuel Hsize.
  - destruct fuel as [|fuel]; [simpl in Hfuel; lia|].
    rewrite app_nil_r in *. unfold Vector.size in Hsize.
    simpl display_loop.
    rewrite size_t_of_int_small by lia.
    unfold Vector.size. rewrite Z.ltb_irrefl.
    unfold ret. destruct pre; simpl; now rewrite append_empty_r.
  - destruct fuel as [|fuel]; [simpl in Hfuel; lia|].
    simpl in Hfuel.
    assert (Hlen : Z.of_nat (List.length pre) < INT_MAX).
    { unfold Vector.size in Hsize. rewrite length_app in Hsize.
      simpl List.length in Hsize. lia. }
    simpl display_loop.
    rewrite size_t_of_int_small by lia.
    assert (Hin : (Z.of_nat (List.length pre) <? Vector.size (pre ++ x :: suf)) = true).
    { apply Z.ltb_lt. unfold Vector.size. rewrite length_app. simpl List.length. lia. }
    rewrite Hin.
    unfold bind at 1 2 3 4. unfold lift, put_int.
    rewrite at_app_middle. simpl rbind.
    unfold int_succ. apply Z.ltb_lt in Hlen. rewrite Hlen. simpl rbind.
    specialize (IH (pre ++ [x])%list fuel).
    rewrite <- app_assoc in IH. simpl app in IH.
    rewrite length_app in IH. simpl List.length in IH.
    replace (Z.of_nat (List.length pre + 1)) with (Z.of_nat (List.length pre) + 1) in IH by lia.
    destruct pre as [|p pre].
    + simpl. unfold ret, put. rewrite IH by (simpl in *; first [lia | assumption]).
      simpl app. rewrite comma_separated_cons.
      now rewrite !append_assoc.
    + replace (negb (Z.of_nat (List.length (p :: pre)) =? 0)) with true
        by (symmetry; apply negb_true_iff, Z.eqb_neq; simpl List.length; lia).
      unfold put. rewrite IH by (simpl in *; first [lia | assumption]).
      simpl app. simpl comma_led.
      now rewrite !append_assoc.
Qed.

Lemma display_ok (fuel : nat) (vector_ref : Vector.t) (out : ostream) :
  (List.length vector_ref < fuel)%nat ->
  Vector.size vector_ref <= INT_MAX ->
  display fuel vector_ref out
  = Ok (tt, (out ++ comma_separated vector_ref ++ nl)%string).
Proof.
  intros Hfuel Hsize. unfold display, bind.
  change (display_loop fuel vector_ref 0 out)
    with (display_loop fuel ([] ++ vector_ref) (Z.of_nat (List.length (@nil Z))) out).
  rewrite display_loop_from by assumption.
  unfold endl, put. now rewrite append_assoc.
Qed.

(* ------------------------------------------------------------------ *)
(** ** Removing one element: [pop_back] and [erase] *)

Lemma pop_back_snoc (v : Vector.t) (x : Z) :
  Vector.pop_back (v ++ [x]) = Ok v.
Proof.
  induction v as [|y v IH]; [reflexivity|].
  simpl app. simpl Vector.pop_back. rewrite IH.
  destruct (v ++ [x])%list eqn:E; [|reflexivity].
  now destruct v.
Qed.

Lemma pop_back_inv (v v' : Vector.t) :
  Vector.pop_back v = Ok v' -> exists x, v = (v' ++ [x])%list.
Proof.
  revert v'. induction v as [|y v IH]; intros v' H; [discriminate|].
  destruct v as [|z v].
  - inversion H. now exists y.
  - change (Vector.pop_back (y :: z :: v))
      with (rest' <-- Vector.pop_back (z :: v) ;; Ok (y :: rest')) in H.
    destruct (Vector.pop_back (z :: v)) as [r| | |] eqn:E; try discriminate.
    inversion H; subst. destruct (IH r eq_refl) as [x Hx].
    exists x. simpl. now rewrite Hx.
Qed.

Lemma erase_elements_app (pre suf : list Z) (x : Z) :
  Vector.erase_elements (pre ++ x :: suf) (List.length pre) = Ok (pre ++ suf)%list.
Proof.
  induction pre as [|y pre IH]; [reflexivity|].
  simpl. now rewrite IH.
Qed.

Lemma erase_elements_inv (v : Vector.t) :
  forall (it : Vector.iterator) (v' : Vector.t),
    Vector.erase_elements v it = Ok v' ->
    exists pre x suf,
      v = (pre ++ x :: suf)%list /\ v' = (pre ++ suf)%list /\ List.length pre = it.
Proof.
  induction v as [|y v IH]; intros it v' H; [discriminate|].
  destruct it as [|it].
  - inversion H; subst. now exists [], y, v'.
  - simpl in H.
    destruct (Vector.erase_elements v it) as [r| | |] eqn:E; try discriminate.
    inversion H; subst.
    destruct (IH it r E) as (pre & x & suf & -> & -> & <-).
    now exists (y :: pre), x, suf.
Qed.

Lemma erase_elements_beyond (v : Vector.t) :
  forall it : Vector.iterator,
    (List.length v <= it)%nat -> Vector.erase_elements v it = Undefined.
Proof.
  induction v as [|y v IH]; intros it H; [reflexivity|].
  destruct it as [|it]; [simpl in H; lia|].
  simpl in *. rewrite IH by lia. reflexivity.
Qed.

(** A position inside the vector splits it around the element it holds. *)
Lemma split_at (v : Vector.t) (it : nat) :
  (it < List.length v)%nat ->
  exists pre x suf, v = (pre ++ x :: suf)%list /\ List.length pre = it.
Proof.
  intro H.
  destruct (nth_error v it) as [x|] eqn:E.
  - destruct (nth_error_split v it E) as (pre & suf & -> & <-).
    now exists pre, x, suf.
  - apply nth_error_None in E. lia.
Qed.

Lemma deref_app (pre suf : list Z) (x : Z) :
  Vector.deref (pre ++ x :: suf) (List.length pre) = Ok x.
Proof.
  unfold Vector.deref. rewrite nth_error_app2 by lia.
  now rewrite Nat.sub_diag.
Qed.

Lemma incr_app (pre suf : list Z) (x : Z) :
  Vector.incr (pre ++ x :: suf) (List.length pre) = Ok (S (List.length pre)).
Proof.
  unfold Vector.incr. rewrite length_app. simpl List.length.
  destruct (Nat.ltb_spec (List.length pre) (List.length pre + S (List.length suf))); [reflexivity|lia].
Qed.

(* ------------------------------------------------------------------ *)
(** ** The remove-even loop *)

Lemma int_rem_2_even (x : Z) : (int_rem x 2 =? 0) = Z.even x.
Proof.
  unfold int_rem.
  destruct (Z.even x) eqn:E.
  - apply Z.eqb_eq. apply Z.even_spec in E. destruct E as [k ->].
    rewrite Z.mul_comm. now apply Z.rem_mul.
  - apply Z.eqb_neq. intro H.
    apply Z.rem_divide in H; [|discriminate].
    destruct H as [k Hk].
    assert (Z.even x = true) by (apply Z.even_spec; exists k; lia).
    congruence.
Qed.

(** One pass through the body, at the element [x] that follows [pre]. *)
Lemma remove_even_body_at (pre suf : list Z) (x : Z) :
  remove_even_body (pre ++ x :: suf) (List.length pre)
  = if Z.even x
    then Ok ((pre ++ suf)%list, List.length pre)
    else Ok ((pre ++ x :: suf)%list, S (List.length pre)).
Proof.
  unfold remove_even_body. rewrite deref_app. simpl rbind.
  rewrite int_rem_2_even. destruct (Z.even x).
  - unfold Vector.erase. now rewrite erase_elements_app.
  - now rewrite incr_app.
Qed.

Lemma end_app_cons (pre suf : list Z) (x : Z) :
  (List.length pre =? Vector.end_ (pre ++ x :: suf))%nat = false.
Proof.
  apply Nat.eqb_neq. unfold Vector.end_. rewrite length_app. simpl. lia.
Qed.

(** With the iterator at the end of [pre], enough fuel lets the loop
    finish, and it has dropped exactly the even elements of [suf]. *)
Lemma remove_even_loop_from (suf : list Z) :
  forall (pre : list Z) (fuel : nat),
    (List.length suf < fuel)%nat ->
    remove_even_loop fuel (pre ++ suf) (List.length pre)
    = Ok (pre ++ odd_elements suf)%list.
Proof.
  induction suf as [|x suf IH]; intros pre fuel Hfuel;
    (destruct fuel as [|fuel]; [simpl in Hfuel; lia|]); simpl in Hfuel.
  - rewrite app_nil_r. simpl. unfold Vector.end_.
    now rewrite Nat.eqb_refl, app_nil_r.
  - simpl remove_even_loop. rewrite end_app_cons. simpl negb. cbv iota.
    rewrite remove_even_body_at. simpl odd_elements.
    destruct (Z.even x); simpl rbind; simpl fst; simpl snd.
    + apply IH. lia.
    + specialize (IH (pre ++ [x])%list fuel).
      rewrite <- app_assoc, length_app in IH. simpl in IH.
      rewrite Nat.add_1_r in IH. rewrite IH by lia.
      now rewrite <- app_assoc.
Qed.

(** With too little fuel the loop is cut short; it never returns a wrong
    vector. *)
Lemma remove_even_loop_short (suf : list Z) :
  forall (pre : list Z) (fuel : nat),
    (fuel <= List.length suf)%nat ->
    remove_even_loop fuel (pre ++ suf) (List.length pre) = OutOfFuel.
Proof.
  induction suf as [|x suf IH]; intros pre fuel Hfuel;
    (destruct fuel as [|fuel]; [reflexivity|]); simpl in Hfuel; [lia|].
  simpl remove_even_loop. rewrite end_app_cons. simpl negb. cbv iota.
  rewrite remove_even_body_at.
  destruct (Z.even x); simpl rbind; simpl fst; simpl snd.
  - apply IH. lia.
  - specialize (IH (pre ++ [x])%list fuel).
    rewrite <- app_assoc, length_app in IH. simpl in IH.
    rewrite Nat.add_1_r in IH. apply IH. lia.
Qed.

Lemma remove_even_enough (fuel : nat) (v : Vector.t) :
  (List.length v < fuel)%nat -> remove_even fuel v = Ok (odd_elements v).
Proof.
  intro H. unfold remove_even, Vector.begin_.
  exact (remove_even_loop_from v [] fuel H).
Qed.

Lemma remove_even_cut (fuel : nat) (v : Vector.t) :
  (fuel <= List.length v)%nat -> remove_even fuel v = OutOfFuel.
Proof.
  intro H. unfold remove_even, Vector.begin_.
  exact (remove_even_loop_short v [] fuel H).
Qed.

(* ------------------------------------------------------------------ *)
(** ** Counting and searching *)

Lemma count_from_occ (range : list Z) (value : Z) :
  forall ret : Z,
    Algorithm.count_from ret range value
    = ret + Z.of_nat (count_occ Z.eq_dec range value).
Proof.
  induction range as [|x range IH]; intro ret; simpl; [lia|].
  rewrite IH.
  destruct (Z.eqb_spec x value) as [Heq|Hne];
    destruct (Z.eq_dec x value) as [E|E]; try contradiction; lia.
Qed.

Lemma count_if_from_filter (range : list Z) (p : Z -> bool) :
  forall ret : Z,
    Algorithm.count_if_from ret range p
    = ret + Z.of_nat (List.length (filter p range)).
Proof.
  induction range as [|x range IH]; intro ret; simpl; [lia|].
  rewrite IH. destruct (p x); simpl List.length; lia.
Qed.

Lemma find_if_from_shift (range : list Z) (p : Z -> bool) :
  forall first : nat,
    Algorithm.find_if_from first range p
    = (first + Algorithm.find_if range p)%nat.
Proof.
  unfold Algorithm.find_if.
  induction range as [|x range IH]; intro first; simpl; [lia|].
  destruct (p x); [lia|].
  rewrite (IH (S first)), (IH 1%nat). lia.
Qed.

Lemma find_if_cons (x : Z) (range : list Z) (p : Z -> bool) :
  Algorithm.find_if (x :: range) p
  = if p x then O else S (Algorithm.find_if range p).
Proof.
  unfold Algorithm.find_if at 1. simpl.
  destruct (p x); [reflexivity|].
  now rewrite find_if_from_shift.
Qed.

Lemma find_if_le (range : list Z) (p : Z -> bool) :
  (Algorithm.find_if range p <= List.length range)%nat.
Proof.
  induction range as [|x range IH]; [unfold Algorithm.find_if; simpl; lia|].
  rewrite find_if_cons. destruct (p x); simpl; lia.
Qed.

(** The search stops at [last] exactly when no element passes. *)
Lemma find_if_end (range : list Z) (p : Z -> bool) :
  Algorithm.find_if range p = List.length range
  <-> forall y, In y range -> p y = false.
Proof.
  induction range as [|x range IH].
  - split; [intros _ y []|reflexivity].
  - rewrite find_if_cons. destruct (p x) eqn:E; simpl.
    + split; [discriminate|]. intro H. specialize (H x (or_introl eq_refl)). congruence.
    + split.
      * intros H y [<-|Hy]; [assumption|]. apply IH; [lia|assumption].
      * intro H. f_equal. apply IH. intros y Hy. apply H. now right.
Qed.

(** A search that stops before [last] stops at an element that passes, and
    every element before it fails. *)
Lemma find_if_found (range : list Z) (p : Z -> bool) :
  (Algorithm.find_if range p < List.length range)%nat ->
  exists y,
    nth_error range (Algorithm.find_if range p) = Some y /\ p y = true
    /\ forall j z, (j < Algorithm.find_if range p)%nat ->
                   nth_error range j = Some z -> p z = false.
Proof.
  induction range as [|x range IH]; [simpl; lia|].
  rewrite find_if_cons. destruct (p x) eqn:E; simpl; intro H.
  - exists x. repeat split; [assumption|]. intros j z Hj. lia.
  - destruct IH as (y & Hn & Hp & Hfirst); [lia|].
    exists y. repeat split; try assumption.
    intros [|j] z Hj Hz; simpl in Hz.
    + now inversion Hz; subst.
    + apply (Hfirst j); [lia|assumption].
Qed.

Lemma all_of_forall (range : list Z) (p : Z -> bool) :
  Algorithm.all_of range p = true <-> forall y, In y range -> p y = true.
Proof.
  unfold Algorithm.all_of, Algorithm.find_if_not.
  rewrite Nat.eqb_eq, find_if_end.
  split; intros H y Hy; specialize (H y Hy).
  - now apply negb_false_iff.
  - now rewrite H.
Qed.

Lemma find_end_iff (range : list Z) (value : Z) :
  Algorithm.find range value = Vector.end_ range <-> ~ In value range.
Proof.
  unfold Algorithm.find, Vector.end_. rewrite find_if_end. split.
  - intros H Hin. specialize (H value Hin). rewrite Z.eqb_refl in H. discriminate.
  - intros H y Hy. apply Z.eqb_neq. intros ->. contradiction.
Qed.

(* ------------------------------------------------------------------ *)
(** ** Vector equality *)

Lemma equal_eq (a : Vector.t) :
  forall b : Vector.t,
    List.length a = List.length b -> (Vector.equal a b = true <-> a = b).
Proof.
  induction a as [|x a IH]; intros [|y b] Hlen; simpl in *; try discriminate.
  - split; reflexivity.
  - destruct (Z.eqb_spec x y) as [->|Hne].
    + rewrite IH by lia. split; [now intros ->|now inversion 1].
    + split; [discriminate|]. inversion 1. contradiction.
Qed.

Lemma vector_eqb_eq (a b : Vector.t) : Vector.eqb a b = true <-> a = b.
Proof.
  unfold Vector.eqb, Vector.size.
  destruct (Z.eqb_spec (Z.of_nat (List.length a)) (Z.of_nat (List.length b))) as [E|E].
  - apply equal_eq. lia.
  - split; [discriminate|]. intros ->. contradiction.
Qed.

Lemma vector_eqb_neq (a b : Vector.t) : Vector.eqb a b = false <-> a <> b.
Proof.
  rewrite <- vector_eqb_eq. destruct (Vector.eqb a b); split; congruence.
Qed.

(* ------------------------------------------------------------------ *)
(** ** Running the driver *)

Lemma print_loop_from (suf : list Z) :
  forall (pre : list Z) (fuel : nat) (out : ostream),
    (List.length suf < fuel)%nat ->
    print_loop fuel (pre ++ suf) (List.length pre) out
    = Ok (tt, (out ++ comma_trailed suf)%string).
Proof.
  induction suf as [|x suf IH]; intros pre fuel out Hfuel;
    (destruct fuel as [|fuel]; [simpl in Hfuel; lia|]); simpl in Hfuel.
  - rewrite app_nil_r. simpl. unfold Vector.end_.
    rewrite Nat.eqb_refl. simpl. unfold ret. now rewrite append_empty_r.
  - simpl print_loop. rewrite end_app_cons.
    cbv beta iota delta [negb].
    unfold bind at 1 2 3 4. unfold lift.
    rewrite deref_app, incr_app.
    cbv beta iota delta [rbind put_int put].
    specialize (IH (pre ++ [x])%list fuel).
    rewrite <- app_assoc, length_app in IH. simpl in IH.
    rewrite Nat.add_1_r in IH. rewrite IH by lia.
    simpl comma_trailed. now rewrite !append_assoc.
Qed.

Lemma print_loop_ok (fuel : nat) (v : Vector.t) (out : ostream) :
  (List.length v < fuel)%nat ->
  print_loop fuel v (Vector.begin_ v) out = Ok (tt, (out ++ comma_trailed v)%string).
Proof.
  intro H. exact (print_loop_from v [] fuel out H).
Qed.

(** One statement of the driver at a time: the loops are replaced by what
    they are proved to write, the rest is evaluated. *)
Ltac run_loops :=
  repeat first
    [ rewrite display_ok by (cbn; unfold INT_MAX; lia)
    | rewrite print_loop_ok by (cbn; lia)
    | rewrite remove_even_enough by (cbn; lia) ].

Lemma main_populate_run (fuel : nat) :
  (6 <= fuel)%nat ->
  main_populate fuel ""%string
  = Ok ([18; 17; 21; 18; 21],
        ("sam206 - vector - using Iterators" ++ nl ++ "18,17,21,18,21" ++ nl)%string).
Proof.
  intro H. unfold main_populate, bind, endl, put, ret.
  run_loops. reflexivity.
Qed.

Lemma main_first_half_run (fuel : nat) :
  (6 <= fuel)%nat ->
  main_first_half fuel ""%string = Ok ([18; 17; 21; 18], transcript_first_half).
Proof.
  intro H. unfold main_first_half. unfold bind at 1.
  rewrite main_populate_run by assumption.
  unfold bind at 1. change (main_iterator _ _) with
    (Ok (tt, ("sam206 - vector - using Iterators" ++ nl ++ "18,17,21,18,21" ++ nl
       ++ "Dereferencing the Iterator to get first element in vector, value = 18" ++ nl
       ++ "Increment by one (iter++;) Dereferencing the Iterator to get value = 17" ++ nl)%string)).
  unfold main_for_print, bind, endl, put.
  run_loops. reflexivity.
Qed.

Lemma main_run (fuel : nat) :
  (6 <= fuel)%nat -> main fuel ""%string = Ok (tt, transcript).
Proof.
  intro H. unfold main. unfold bind at 1.
  rewrite main_first_half_run by assumption.
  unfold main_erase_third, main_repopulate, main_remove_even.
  unfold bind, endl, put, ret, lift.
  run_loops.
  change (Vector.advance [18; 17; 21; 18] (Vector.begin_ [18; 17; 21; 18]) 2%nat)
    with (@Ok Vector.iterator 2%nat).
  cbv beta iota delta [rbind].
  change (Vector.erase [18; 17; 21; 18] 2%nat) with (@Ok (Vector.t * Vector.iterator) ([18; 17; 18], 2%nat)).
  cbv beta iota delta [rbind fst].
  run_loops.
  change (odd_elements (populate_vector [18; 17; 18])) with [17; 21; 21].
  cbv beta iota delta [rbind].
  run_loops.
  reflexivity.
Qed.

(* ------------------------------------------------------------------ *)
(** ** When the unchecked operations are defined *)

Lemma deref_undefined (v : Vector.t) (it : Vector.iterator) :
  Vector.deref v it = Undefined <-> (List.length v <= it)%nat.
Proof.
  unfold Vector.deref. rewrite <- nth_error_None.
  destruct (nth_error v it); split; congruence.
Qed.

Lemma erase_defined (v : Vector.t) (it : Vector.iterator) :
  (exists r, Vector.erase v it = Ok r) <-> (it < List.length v)%nat.
Proof.
  unfold Vector.erase. split.
  - intros [r H]. destruct (Nat.lt_ge_cases it (List.length v)) as [|Hge]; [assumption|].
    rewrite erase_elements_beyond in H by assumption. discriminate.
  - intro H. destruct (split_at v it H) as (pre & x & suf & -> & <-).
    rewrite erase_elements_app. now eexists.
Qed.

Lemma erase_inv (v v' : Vector.t) (it it' : Vector.iterator) :
  Vector.erase v it = Ok (v', it') ->
  exists pre x suf,
    v = (pre ++ x :: suf)%list /\ v' = (pre ++ suf)%list
    /\ List.length pre = it /\ it' = it.
Proof.
  unfold Vector.erase. intro H.
  destruct (Vector.erase_elements v it) as [r| | |] eqn:E; try discriminate.
  inversion H; subst.
  destruct (erase_elements_inv _ _ _ E) as (pre & x & suf & Hv & Hr & Hlen).
  exists pre, x, suf. auto.
Qed.

(* ------------------------------------------------------------------ *)
(** ** [display] beyond the range of its counter *)

Lemma at_in_range (v : Vector.t) (n : Z) :
  0 <= n < Vector.size v -> exists x, Vector.at_ v n = Ok x.
Proof.
  intro H. unfold Vector.at_.
  destruct (Z.ltb_spec n (Vector.size v)) as [_|Hge]; [|lia].
  destruct (nth_error v (Z.to_nat n)) as [x|] eqn:E; [now exists x|].
  apply nth_error_None in E. unfold Vector.size in H. lia.
Qed.

(** On a vector with more than [INT_MAX] elements the counter reaches
    [INT_MAX] with elements still ahead, and the next [i++] overflows. *)
Lemma display_loop_overflow (fuel : nat) :
  forall (v : Vector.t) (i : Z) (out : ostream),
    0 <= i <= INT_MAX ->
    INT_MAX < Vector.size v ->
    display_loop fuel v i out
    = if INT_MAX - i <? Z.of_nat fuel then Undefined else OutOfFuel.
Proof.
  induction fuel as [|fuel IH]; intros v i out Hi Hsize.
  - simpl display_loop.
    destruct (Z.ltb_spec (INT_MAX - i) (Z.of_nat 0)); [lia|reflexivity].
  - simpl display_loop. rewrite size_t_of_int_small by assumption.
    destruct (Z.ltb_spec i (Vector.size v)) as [Hlt|Hge]; [|lia].
    destruct (at_in_range v i) as [x Hx]; [lia|].
    unfold bind at 1 2 3 4. unfold lift. rewrite Hx.
    assert (Hsep : exists o, (if negb (i =? 0) then put "," else ret tt) out = Ok (tt, o)).
    { destruct (negb (i =? 0)); eexists; reflexivity. }
    destruct Hsep as [o ->].
    cbv beta iota delta [rbind put_int put].
    unfold int_succ.
    destruct (Z.ltb_spec i INT_MAX) as [Hlt'|Hge'].
    + cbv beta iota. rewrite IH by lia.
      destruct (Z.ltb_spec (INT_MAX - (i + 1)) (Z.of_nat fuel));
        destruct (Z.ltb_spec (INT_MAX - i) (Z.of_nat (S fuel))); try reflexivity; lia.
    + cbv beta iota.
      destruct (Z.ltb_spec (INT_MAX - i) (Z.of_nat (S fuel))); [reflexivity|lia].
Qed.

Lemma display_overflow (fuel : nat) (v : Vector.t) (out : ostream) :
  INT_MAX < Vector.size v ->
  display fuel v out = if INT_MAX <? Z.of_nat fuel then Undefined else OutOfFuel.
Proof.
  intro H. unfold display, bind.
  rewrite display_loop_overflow by (unfold INT_MAX in *; lia).
  rewrite Z.sub_0_r. now destruct (INT_MAX <? Z.of_nat fuel).
Qed.

(* ------------------------------------------------------------------ *)
(** ** The shape of a comma-separated line *)

Lemma comma_led_app (a b : list Z) :
  comma_led (a ++ b) = (comma_led a ++ comma_led b)%string.
Proof.
  induction a as [|y a IH]; [reflexivity|].
  simpl. now rewrite IH, append_assoc.
Qed.

(** The line ends with its last element, not with a separator. *)
Lemma comma_separated_snoc (v : Vector.t) (x : Z) :
  comma_separated (v ++ [x])
  = match v with
    | [] => string_of_Z x
    | _ :: _ => (comma_separated v ++ "," ++ string_of_Z x)%string
    end.
Proof.
  destruct v as [|y v]; [reflexivity|].
  simpl app. rewrite !comma_separated_cons, comma_led_app.
  simpl comma_led. now rewrite append_empty_r, append_assoc.
Qed.

(* ------------------------------------------------------------------ *)
(** ** The two texts of the search for 17 *)

Lemma append_inv_head (a b c : string) :
  (a ++ b)%string = (a ++ c)%string -> b = c.
Proof.
  induction a as [|ch a IH]; simpl; intro H; [assumption|].
  injection H as H. now apply IH.
Qed.

(** Lines 186-194 on a vector that holds 17. *)
Lemma main_find_present (ages_vector : Vector.t) (out : ostream) :
  In 17 ages_vector ->
  main_find ages_vector out
  = Ok (tt, (out ++ "Using find() to find value 17 in the vector." ++ nl
             ++ "Found at least one value 17" ++ nl)%string).
Proof.
  intro H. unfold main_find.
  destruct (Nat.eqb_spec (Algorithm.find ages_vector 17) (Vector.end_ ages_vector))
    as [E|E].
  - apply find_end_iff in E. contradiction.
  - unfold bind, endl, put. cbv beta iota delta [negb].
    now rewrite !append_assoc.
Qed.

(** Lines 186-194 on a vector that does not hold 17. *)
Lemma main_find_absent (ages_vector : Vector.t) (out : ostream) :
  ~ In 17 ages_vector ->
  main_find ages_vector out
  = Ok (tt, (out ++ "Using find() to find value 17 in the vector." ++ nl
             ++ "NO value 17 in vector " ++ nl)%string).
Proof.
  intro H. unfold main_find.
  apply find_end_iff in H. rewrite H, Nat.eqb_refl.
  unfold bind, endl, put. cbv beta iota delta [negb].
  now rewrite !append_assoc.
Qed.

(** The two texts differ, whatever was written before them. *)
Lemma found_text_is_not_missing_text (out : ostream) :
  (out ++ "Using find() to find value 17 in the vector." ++ nl
   ++ "Found at least one value 17" ++ nl)%string
  <> (out ++ "Using find() to find value 17 in the vector." ++ nl
      ++ "NO value 17 in vector " ++ nl)%string.
Proof.
  intro H. apply append_inv_head in H. discriminate H.
Qed.

(* ------------------------------------------------------------------ *)
(** ** The claims *)

(** C1, as stated, does not hold: on the vector [populate_vector] builds,
    the remove-even loop returns 17, 21, 21 and never the two-element
    vector 17, 21, whatever fuel it is given. *)
Lemma remove_even_populated_not_17_21 :
  remove_even 6 (populate_vector []) = Ok [17; 21; 21]
  /\ ~ exists fuel : nat, remove_even fuel (populate_vector []) = Ok [17; 21].
Proof.
  split; [reflexivity|].
  intros [fuel H].
  destruct (Nat.lt_ge_cases 5 fuel) as [Hlt|Hge].
  - rewrite remove_even_enough in H by exact Hlt. discriminate H.
  - rewrite remove_even_cut in H by exact Hge. discriminate H.
Qed.

(** C1, amended. On the vector [populate_vector] builds (18, 17, 21, 18,
    21) the remove-even loop of lines 148-154 returns exactly 17, 21, 21:
    the two 18s are erased and the three odd elements survive in their
    original order; line 156 then prints 17,21,21. *)
Theorem remove_even_populated :
  forall (fuel : nat) (vect : Vector.t),
    (6 <= fuel)%nat ->
    remove_even fuel (populate_vector vect) = Ok [17; 21; 21]
    /\ odd_elements (populate_vector vect) = [17; 21; 21]
    /\ main_remove_even fuel (populate_vector vect) ""%string
       = Ok ([17; 21; 21],
             ("Iterating over vector to remove even elements" ++ nl
              ++ "After removal of even elements vector contains : 17,21,21" ++ nl)%string).
Proof.
  intros fuel vect H. rewrite populate_vector_eq. repeat split.
  - now rewrite remove_even_enough by (simpl; lia).
  - unfold main_remove_even, bind, endl, put, ret, lift.
    run_loops. cbv beta iota delta [rbind]. run_loops. reflexivity.
Qed.

Lemma remove_even_populated_witness :
  remove_even 6 (populate_vector [1; 2; 3]) = Ok [17; 21; 21].
Proof.
  exact (proj1 (remove_even_populated 6 [1; 2; 3] (Nat.le_refl 6))).
Defined.

(** C2. Whatever the vector held before, empty or not, [populate_vector]
    leaves it equal to the five-element sequence 18, 17, 21, 18, 21 in
    that order, so its size is exactly 5 after every call. *)
Theorem populate_vector_exact :
  forall vect : Vector.t,
    populate_vector vect = [18; 17; 21; 18; 21]
    /\ Vector.size (populate_vector vect) = 5
    /\ populate_vector [] = [18; 17; 21; 18; 21]
    /\ populate_vector (populate_vector vect) = populate_vector vect.
Proof.
  intro vect.
  unfold populate_vector, Vector.clear, Vector.push_back, Vector.size.
  simpl. repeat split.
Qed.

(** C3. [display] is meant to print every element of any vector, but
    it counts with [int i] against the unsigned [size()] (line 228), and
    there the code falls short: on a vector of 2^31 + 1 zeros the counter
    reaches [INT_MAX] with elements still ahead and [i++] overflows, so no
    amount of fuel yields the printed line, and with enough fuel the
    outcome is undefined behaviour. *)
Lemma display_overflows_on_huge_vector :
  Vector.size (repeat 0 (Z.to_nat 2147483649)) = 2147483649
  /\ display (Z.to_nat 2147483650) (repeat 0 (Z.to_nat 2147483649)) ""%string
     = Undefined
  /\ ~ exists (fuel : nat) (line : unit * ostream),
         display fuel (repeat 0 (Z.to_nat 2147483649)) ""%string = Ok line.
Proof.
  assert (Hsize : Vector.size (repeat 0 (Z.to_nat 2147483649)) = 2147483649).
  { unfold Vector.size. rewrite repeat_length. apply Z2Nat.id. discriminate. }
  split; [exact Hsize|]. split.
  - rewrite display_overflow by (rewrite Hsize; reflexivity).
    rewrite Z2Nat.id by discriminate. reflexivity.
  - intros (fuel & line & H).
    rewrite display_overflow in H by (rewrite Hsize; reflexivity).
    destruct (INT_MAX <? Z.of_nat fuel); discriminate H.
Qed.

(** X14. As long as the size of the vector fits the [int] counter of
    line 228 (at most [INT_MAX] elements), [display] writes one line: the
    elements in order, separated by [","], nothing before the first
    element and nothing after the last, then a newline. The populated
    vector prints as 18,17,21,18,21 and the empty vector as an empty
    line. *)
Theorem display_one_line :
  (forall (fuel : nat) (vector_ref : Vector.t) (out : ostream),
      (List.length vector_ref < fuel)%nat ->
      Vector.size vector_ref <= INT_MAX ->
      display fuel vector_ref out
      = Ok (tt, (out ++ comma_separated vector_ref ++ nl)%string))
  /\ (forall (x : Z) (rest : list Z),
         comma_separated (x :: rest) = (string_of_Z x ++ comma_led rest)%string)
  /\ (forall (x y : Z) (v : list Z),
         comma_separated ((y :: v) ++ [x])
         = (comma_separated (y :: v) ++ "," ++ string_of_Z x)%string)
  /\ (forall (fuel : nat) (out : ostream),
         (5 < fuel)%nat ->
         display fuel [18; 17; 21; 18; 21] out
         = Ok (tt, (out ++ "18,17,21,18,21" ++ nl)%string))
  /\ (forall (fuel : nat) (out : ostream),
         (0 < fuel)%nat -> display fuel [] out = Ok (tt, (out ++ nl)%string)).
Proof.
  split; [exact display_ok|].
  split; [exact comma_separated_cons|].
  split; [intros x y v; exact (comma_separated_snoc (y :: v) x)|].
  split; intros fuel out H; now rewrite display_ok.
Qed.

Lemma display_one_line_witness :
  display 6 [18; 17; 21; 18; 21] ""%string = Ok (tt, ("18,17,21,18,21" ++ nl)%string)
  /\ display 1 [] ""%string = Ok (tt, nl)
  /\ display 3 [-4; 0] "ages: "%string = Ok (tt, ("ages: -4,0" ++ nl)%string).
Proof.
  destruct display_one_line as (Hline & _ & _ & Hages & Hempty).
  split; [|split].
  - apply (Hages 6%nat ""%string). lia.
  - apply (Hempty 1%nat ""%string). lia.
  - apply (Hline 3%nat [-4; 0] "ages: "%string).
    + simpl. lia.
    + unfold Vector.size, INT_MAX. simpl. lia.
Defined.

(** C4. Every removal the driver performs keeps the other elements in
    their original order. The guarded [pop_back] of lines 116-119 drops
    only the last element (and leaves an empty vector alone); [erase], as
    called at index 2 in line 129 and inside the remove-even loop, drops
    only the element at its position; a pass through the body of the
    remove-even loop either leaves the vector as it is or drops only the
    even element under the iterator. Conversely every successful removal
    has this shape. A size is never negative. *)
Theorem removals_keep_order :
  (forall (v : Vector.t) (x : Z) (out : ostream),
      main_pop_back (v ++ [x]) out = Ok (v, out))
  /\ (forall out : ostream, main_pop_back [] out = Ok ([], out))
  /\ (forall (pre suf : list Z) (x : Z),
         Vector.erase (pre ++ x :: suf) (List.length pre)
         = Ok ((pre ++ suf)%list, List.length pre))
  /\ (forall (pre suf : list Z) (x : Z),
         remove_even_body (pre ++ x :: suf) (List.length pre)
         = if Z.even x
           then Ok ((pre ++ suf)%list, List.length pre)
           else Ok ((pre ++ x :: suf)%list, S (List.length pre)))
  /\ (forall v v' : Vector.t,
         Vector.pop_back v = Ok v' -> exists x, v = (v' ++ [x])%list)
  /\ (forall (v v' : Vector.t) (it it' : Vector.iterator),
         Vector.erase v it = Ok (v', it') ->
         exists pre x suf,
           v = (pre ++ x :: suf)%list /\ v' = (pre ++ suf)%list
           /\ List.length pre = it /\ it' = it)
  /\ (forall (v v' : Vector.t) (it it' : Vector.iterator),
         remove_even_body v it = Ok (v', it') ->
         (v' = v /\ it' = S it)
         \/ exists pre x suf,
             v = (pre ++ x :: suf)%list /\ v' = (pre ++ suf)%list
             /\ List.length pre = it /\ it' = it /\ Z.even x = true)
  /\ (forall v : Vector.t, 0 <= Vector.size v).
Proof.
  split; [|split; [|split; [|split; [|split; [|split; [|split]]]]]].
  - intros v x out. unfold main_pop_back, lift.
    rewrite pop_back_snoc. now destruct v.
  - reflexivity.
  - intros pre suf x. unfold Vector.erase. now rewrite erase_elements_app.
  - exact remove_even_body_at.
  - exact pop_back_inv.
  - exact erase_inv.
  - intros v v' it it' H.
    destruct (Nat.lt_ge_cases it (List.length v)) as [Hlt|Hge].
    + destruct (split_at v it Hlt) as (pre & x & suf & -> & <-).
      rewrite remove_even_body_at in H.
      destruct (Z.even x) eqn:E; inversion H; subst.
      * right. now exists pre, x, suf.
      * now left.
    + unfold remove_even_body in H.
      apply deref_undefined in Hge. rewrite Hge in H. discriminate.
  - intro v. unfold Vector.size. lia.
Qed.

Lemma removals_keep_order_witness :
  (exists x, [18; 17; 21; 18; 21] = ([18; 17; 21; 18] ++ [x])%list)
  /\ (exists pre x suf,
         [18; 17; 21; 18] = (pre ++ x :: suf)%list /\ [18; 17; 18] = (pre ++ suf)%list
         /\ List.length pre = 2%nat)
  /\ (exists pre x suf,
         [18; 17; 21; 18; 21] = (pre ++ x :: suf)%list
         /\ [17; 21; 18; 21] = (pre ++ suf)%list /\ Z.even x = true).
Proof.
  destruct removals_keep_order as (_ & _ & _ & _ & Hpop & Herase & Hbody & _).
  split; [|split].
  - exact (Hpop [18; 17; 21; 18; 21] [18; 17; 21; 18] eq_refl).
  - destruct (Herase [18; 17; 21; 18] [18; 17; 18] 2%nat 2%nat eq_refl)
      as (pre & x & suf & Hv & Hv' & Hlen & _).
    now exists pre, x, suf.
  - destruct (Hbody [18; 17; 21; 18; 21] [17; 21; 18; 21] 0%nat 0%nat eq_refl)
      as [[E _]|(pre & x & suf & Hv & Hv' & _ & _ & Hx)]; [discriminate E|].
    now exists pre, x, suf.
Defined.

(** C5. In the fixed run no unchecked operation leaves its domain. A
    dereference is undefined exactly at positions from the size on, and
    [erase] succeeds exactly at positions below it. When [begin()] is
    dereferenced, stepped and dereferenced again the vector holds five
    elements (at least two), and 18 then 17 are printed; when the element
    at index 2 is erased the vector holds four (at least three). The whole
    run ends normally with the expected transcript, so neither undefined
    behaviour nor an out-of-range exception is ever reached. *)
Theorem driver_stays_in_bounds :
  (forall (v : Vector.t) (it : Vector.iterator),
      Vector.deref v it = Undefined <-> (List.length v <= it)%nat)
  /\ (forall (v : Vector.t) (it : Vector.iterator),
         (exists r, Vector.erase v it = Ok r) <-> (it < List.length v)%nat)
  /\ forall fuel : nat,
       (6 <= fuel)%nat ->
       exists (ages_at_iterator ages_at_erase : Vector.t) (out_at_iterator : ostream),
         main_populate fuel ""%string = Ok (ages_at_iterator, out_at_iterator)
         /\ 2 <= Vector.size ages_at_iterator
         /\ Vector.deref ages_at_iterator (Vector.begin_ ages_at_iterator) = Ok 18
         /\ Vector.incr ages_at_iterator (Vector.begin_ ages_at_iterator) = Ok 1%nat
         /\ Vector.deref ages_at_iterator 1%nat = Ok 17
         /\ main_iterator ages_at_iterator out_at_iterator
            = Ok (tt, (out_at_iterator
                       ++ "Dereferencing the Iterator to get first element in vector, value = 18" ++ nl
                       ++ "Increment by one (iter++;) Dereferencing the Iterator to get value = 17" ++ nl)%string)
         /\ main_first_half fuel ""%string = Ok (ages_at_erase, transcript_first_half)
         /\ 3 <= Vector.size ages_at_erase
         /\ Vector.advance ages_at_erase (Vector.begin_ ages_at_erase) 2 = Ok 2%nat
         /\ Vector.erase ages_at_erase 2%nat = Ok ([18; 17; 18], 2%nat)
         /\ main fuel ""%string = Ok (tt, transcript).
Proof.
  split; [exact deref_undefined|]. split; [exact erase_defined|].
  intros fuel H.
  exists [18; 17; 21; 18; 21], [18; 17; 21; 18].
  eexists. split; [now apply main_populate_run|].
  repeat split; try reflexivity; try discriminate.
  - now apply main_first_half_run.
  - now apply main_run.
Qed.

Lemma driver_stays_in_bounds_witness :
  main 6 ""%string = Ok (tt, transcript).
Proof.
  destruct driver_stays_in_bounds as (_ & _ & Hrun).
  destruct (Hrun 6%nat (Nat.le_refl 6))
    as (v1 & v2 & out1 & _ & _ & _ & _ & _ & _ & _ & _ & _ & _ & Hmain).
  exact Hmain.
Defined.

(** C6. [count] returns the number of elements equal to the value and
    [count_if] the number of elements that pass the predicate. Over the
    whole populated vector, counting the elements equal to 21 gives 2 and
    counting the elements below 18 gives 1, the only such element being
    17; these are the numbers lines 104 and 113 print. *)
Theorem counts_on_populated :
  (forall (v : Vector.t) (value : Z),
      Algorithm.count v value = Z.of_nat (count_occ Z.eq_dec v value))
  /\ (forall (v : Vector.t) (p : Z -> bool),
         Algorithm.count_if v p = Z.of_nat (List.length (filter p v)))
  /\ forall vect : Vector.t,
       Algorithm.count (populate_vector vect) 21 = 2
       /\ Algorithm.count_if (populate_vector vect) (fun i => i <? 18) = 1
       /\ filter (fun i => i <? 18) (populate_vector vect) = [17]
       /\ main_counts (populate_vector vect) ""%string
          = Ok (tt, ("Count of students aged 21 = 2" ++ nl
                     ++ "Count of students aged under 18 = 1" ++ nl)%string).
Proof.
  split; [|split].
  - intros v value. unfold Algorithm.count. now rewrite count_from_occ.
  - intros v p. unfold Algorithm.count_if. now rewrite count_if_from_filter.
  - intro vect. rewrite populate_vector_eq. repeat split.
Qed.


(** C8. The search of lines 186-194 reports "found" exactly when [find]
    did not run to [end()], that is, exactly when the value occurs: on
    every vector the driver writes "Found at least one value 17" when
    [find] returns a position before [end()] and "NO value 17 in vector "
    when it returns [end()]. A successful search returns the position of
    the first match, before [end()], and a failed one returns [end()]. In
    the populated vector 17 is found (at position 1) and 99 is not. *)
Theorem find_reports_found :
  (forall (v : Vector.t) (out : ostream),
      main_find v out
      = Ok (tt, (out ++ "Using find() to find value 17 in the vector." ++ nl
                 ++ "Found at least one value 17" ++ nl)%string)
      <-> Algorithm.find v 17 <> Vector.end_ v)
  /\ (forall (v : Vector.t) (out : ostream),
         main_find v out
         = Ok (tt, (out ++ "Using find() to find value 17 in the vector." ++ nl
                    ++ "NO value 17 in vector " ++ nl)%string)
         <-> Algorithm.find v 17 = Vector.end_ v)
  /\ (forall (v : Vector.t) (value : Z),
         negb (Algorithm.find v value =? Vector.end_ v)%nat = true <-> In value v)
  /\ (forall (v : Vector.t) (value : Z),
         In value v ->
         (Algorithm.find v value < Vector.end_ v)%nat
         /\ Vector.deref v (Algorithm.find v value) = Ok value
         /\ forall j : Vector.iterator,
              (j < Algorithm.find v value)%nat -> Vector.deref v j <> Ok value)
  /\ (forall (v : Vector.t) (value : Z),
         ~ In value v -> Algorithm.find v value = Vector.end_ v)
  /\ (forall vect : Vector.t,
         Algorithm.find (populate_vector vect) 17 = 1%nat
         /\ (1 < Vector.end_ (populate_vector vect))%nat
         /\ Algorithm.find (populate_vector vect) 99 = Vector.end_ (populate_vector vect)
         /\ main_find (populate_vector vect) ""%string
            = Ok (tt, ("Using find() to find value 17 in the vector." ++ nl
                       ++ "Found at least one value 17" ++ nl)%string)).
Proof.
  assert (Hfound : forall (v : Vector.t) (value : Z),
             In value v -> (Algorithm.find v value < Vector.end_ v)%nat).
  { intros v value Hin.
    assert (Hle := find_if_le v (fun x => x =? value)).
    destruct (Nat.eq_dec (Algorithm.find v value) (Vector.end_ v)) as [E|E].
    - apply find_end_iff in E. contradiction.
    - unfold Algorithm.find, Vector.end_ in *. lia. }
  split; [|split; [|split; [|split; [|split]]]].
  - intros v out. split.
    + intros Hrun Hend. apply find_end_iff in Hend.
      rewrite main_find_absent in Hrun by assumption.
      injection Hrun as Hrun. symmetry in Hrun.
      exact (found_text_is_not_missing_text out Hrun).
    + intro Hne. apply main_find_present.
      destruct (in_dec Z.eq_dec 17 v) as [Hin|Hout]; [assumption|].
      apply find_end_iff in Hout. contradiction.
  - intros v out. split.
    + intro Hrun.
      destruct (in_dec Z.eq_dec 17 v) as [Hin|Hout]; [|now apply find_end_iff].
      rewrite main_find_present in Hrun by assumption.
      injection Hrun as Hrun.
      exfalso. exact (found_text_is_not_missing_text out Hrun).
    + intro Hend. apply main_find_absent. now apply find_end_iff.
  - intros v value. rewrite negb_true_iff, Nat.eqb_neq, find_end_iff.
    split; [|tauto]. intro H.
    destruct (in_dec Z.eq_dec value v); [assumption|contradiction].
  - intros v value Hin. specialize (Hfound v value Hin).
    destruct (find_if_found v (fun x => x =? value) Hfound) as (y & Hn & Hy & Hfirst).
    apply Z.eqb_eq in Hy. subst y.
    split; [assumption|]. split.
    + unfold Vector.deref, Algorithm.find. now rewrite Hn.
    + intros j Hj Hd. unfold Vector.deref in Hd.
      destruct (nth_error v j) as [z|] eqn:Ez; [|discriminate].
      inversion Hd; subst z.
      specialize (Hfirst j value Hj Ez). rewrite Z.eqb_refl in Hfirst. discriminate.
  - intros v value. apply find_end_iff.
  - intro vect. rewrite populate_vector_eq. repeat split. simpl. lia.
Qed.

Lemma find_reports_found_witness :
  main_find [18; 17; 21; 18; 21] ""%string
  = Ok (tt, ("Using find() to find value 17 in the vector." ++ nl
             ++ "Found at least one value 17" ++ nl)%string)
  /\ main_find [18; 99; 21] ""%string
     = Ok (tt, ("Using find() to find value 17 in the vector." ++ nl
                ++ "NO value 17 in vector " ++ nl)%string)
  /\ Nat.lt (Algorithm.find [18; 17; 21; 18; 21] 17) (Vector.end_ [18; 17; 21; 18; 21])
  /\ Algorithm.find [18; 17; 21; 18; 21] 99 = Vector.end_ [18; 17; 21; 18; 21].
Proof.
  destruct find_reports_found as (Hyes & Hno & _ & Hin & Hout & _).
  split; [|split; [|split]].
  - apply (proj2 (Hyes [18; 17; 21; 18; 21] ""%string)). discriminate.
  - apply (proj2 (Hno [18; 99; 21] ""%string)). reflexivity.
  - refine (proj1 (Hin [18; 17; 21; 18; 21] 17 _)).
    simpl. right. left. reflexivity.
  - refine (Hout [18; 17; 21; 18; 21] 99 _).
    simpl. intros [H|[H|[H|[H|[H|H]]]]]; try discriminate H. exact H.
Defined.

(** C9. Vector equality holds exactly when the two vectors have the same
    length and the same element at every position. The two lotto vectors,
    built separately with the same contents, compare equal; a vector of
    another length, a different ordering of the same numbers, or a change
    of any single element compares unequal. *)
Theorem vector_equality :
  (forall a b : Vector.t, Vector.eqb a b = true <-> a = b)
  /\ Vector.eqb lottoDraw myNumbers = true
  /\ main_lotto ""%string = Ok (tt, ("Horray, I have won the lotto" ++ nl)%string)
  /\ (forall a b : Vector.t,
         List.length a <> List.length b -> Vector.eqb a b = false)
  /\ (forall a b : Vector.t,
         Permutation a b -> a <> b -> Vector.eqb a b = false)
  /\ (forall (pre suf : list Z) (x y : Z),
         x <> y -> Vector.eqb (pre ++ x :: suf) (pre ++ y :: suf) = false).
Proof.
  split; [exact vector_eqb_eq|].
  split; [reflexivity|]. split; [reflexivity|].
  split; [|split].
  - intros a b H. apply vector_eqb_neq. congruence.
  - intros a b _ H. now apply vector_eqb_neq.
  - intros pre suf x y H. apply vector_eqb_neq. intro E.
    apply app_inv_head in E. congruence.
Qed.

Lemma vector_equality_witness :
  Vector.eqb lottoDraw [10; 2; 13; 22; 35; 47] = false
  /\ Vector.eqb lottoDraw [2; 10; 13; 22; 35; 48] = false
  /\ Vector.eqb lottoDraw [2; 10; 13; 22; 35] = false.
Proof.
  destruct vector_equality as (_ & _ & _ & Hlen & Hperm & Hone).
  split; [|split].
  - apply Hperm; [|discriminate].
    unfold lottoDraw. apply perm_swap.
  - exact (Hone [2; 10; 13; 22; 35] [] 47 48 ltac:(discriminate)).
  - apply Hlen. simpl. lia.
Defined.

(** C10. The remove-even loop terminates on every vector. A pass through
    its body at an iterator short of [end()] always succeeds and either
    erases the current element (one element fewer, iterator in place) or
    steps the iterator (same vector, one position further); either way
    the iterator stays within the vector and its distance to [end()]
    drops. Hence with fuel beyond the length the loop reaches [end()] and
    returns, and what it returns is the vector without its even
    elements. *)
Theorem remove_even_terminates :
  forall v : Vector.t,
    (forall it : Vector.iterator,
        (it < List.length v)%nat ->
        exists (v' : Vector.t) (it' : Vector.iterator),
          remove_even_body v it = Ok (v', it')
          /\ ((S (List.length v') = List.length v /\ it' = it)
              \/ (v' = v /\ it' = S it))
          /\ (it' <= List.length v')%nat
          /\ (List.length v' - it' < List.length v - it)%nat)
    /\ (forall fuel : nat,
           (List.length v < fuel)%nat -> remove_even fuel v = Ok (odd_elements v))
    /\ exists (fuel : nat) (result : Vector.t), remove_even fuel v = Ok result.
Proof.
  intro v. split; [|split].
  - intros it Hlt.
    destruct (split_at v it Hlt) as (pre & x & suf & -> & <-).
    rewrite remove_even_body_at.
    destruct (Z.even x); eexists; eexists; (split; [reflexivity|]);
      rewrite ?length_app; simpl List.length.
    + split; [left; split; [lia|reflexivity]|]. split; lia.
    + split; [right; split; reflexivity|]. split; lia.
  - intros fuel H. now apply remove_even_enough.
  - exists (S (List.length v)), (odd_elements v).
    apply remove_even_enough. lia.
Qed.

Lemma remove_even_terminates_witness :
  remove_even 4 [2; 4; 5] = Ok [5]
  /\ exists (v' : Vector.t) (it' : Vector.iterator),
       remove_even_body [2; 4; 5] 1%nat = Ok (v', it')
       /\ Nat.lt (List.length v' - it') (List.length [2; 4; 5] - 1).
Proof.
  destruct (remove_even_terminates [2; 4; 5]) as (Hstep & Hrun & _).
  split.
  - apply (Hrun 4%nat). simpl. lia.
  - destruct (Hstep 1%nat) as (v' & it' & Hbody & _ & _ & Hdist).
    + simpl. lia.
    + exists v', it'. split; assumption.
Defined.


(* ------------------------------------------------------------------ *)
(** ** The text of a number *)

Lemma string_of_uint_chars (d : Decimal.uint) :
  all_chars number_char (NilEmpty.string_of_uint d) = true.
Proof.
  induction d; simpl; assumption || reflexivity.
Qed.

Lemma string_of_Z_chars (z : Z) : all_chars number_char (string_of_Z z) = true.
Proof.
  unfold string_of_Z, NilZero.string_of_int, NilZero.string_of_uint.
  destruct (Z.to_int z) as [d|d]; destruct d; simpl;
    try reflexivity; apply string_of_uint_chars.
Qed.

Lemma string_of_Z_nonempty (z : Z) : string_of_Z z <> EmptyString.
Proof.
  unfold string_of_Z, NilZero.string_of_int, NilZero.string_of_uint.
  destruct (Z.to_int z) as [d|d]; destruct d; discriminate.
Qed.

Lemma to_int_proper (z : Z) :
  Z.to_int z <> Decimal.Pos Decimal.Nil /\ Z.to_int z <> Decimal.Neg Decimal.Nil.
Proof.
  destruct z as [|p|p]; simpl; split; try discriminate;
    intro H; injection H as H; exact (DecimalPos.Unsigned.to_uint_nonnil p H).
Qed.

(** Two different numbers never print alike. *)
Lemma string_of_Z_inj (x y : Z) : string_of_Z x = string_of_Z y -> x = y.
Proof.
  unfold string_of_Z. intro H.
  destruct (to_int_proper x) as [Hx1 Hx2], (to_int_proper y) as [Hy1 Hy2].
  assert (E : Some (Z.to_int x) = Some (Z.to_int y)).
  { rewrite <- (NilZero.isi (Z.to_int x)), <- (NilZero.isi (Z.to_int y)) by assumption.
    now rewrite H. }
  injection E as E.
  rewrite <- (DecimalZ.of_to x), <- (DecimalZ.of_to y). now rewrite E.
Qed.

(** A number followed by a text that cannot continue it is read back in
    one way only. *)
Lemma number_then_break (a : string) :
  forall b t t' : string,
    all_chars number_char a = true ->
    all_chars number_char b = true ->
    breaks_number t = true ->
    breaks_number t' = true ->
    (a ++ t)%string = (b ++ t')%string ->
    a = b /\ t = t'.
Proof.
  induction a as [|c a IH]; intros [|d b] t t' Ha Hb Ht Ht' E; simpl in *.
  - now split.
  - subst t. simpl in Ht. destruct (number_char d); discriminate.
  - subst t'. simpl in Ht'. destruct (number_char c); discriminate.
  - injection E as -> E.
    destruct (number_char d); [|discriminate].
    destruct (IH b t t' Ha Hb Ht Ht' E) as [-> ->]. now split.
Qed.

Lemma comma_led_breaks (l : list Z) : breaks_number (comma_led l) = true.
Proof. destruct l; reflexivity. Qed.

Lemma comma_led_inj (v : list Z) :
  forall w : list Z, comma_led v = comma_led w -> v = w.
Proof.
  induction v as [|x v IH]; intros [|y w] E; simpl in E; try discriminate.
  - reflexivity.
  - injection E as E.
    destruct (number_then_break _ _ _ _ (string_of_Z_chars x) (string_of_Z_chars y)
                (comma_led_breaks v) (comma_led_breaks w) E) as [Hxy Hvw].
    apply string_of_Z_inj in Hxy. apply IH in Hvw. now subst.
Qed.

Lemma comma_separated_nonempty (x : Z) (rest : list Z) :
  comma_separated (x :: rest) <> EmptyString.
Proof.
  rewrite comma_separated_cons. intro H.
  destruct (string_of_Z x) eqn:E; [exact (string_of_Z_nonempty x E)|discriminate].
Qed.

Lemma comma_separated_inj (v w : Vector.t) :
  comma_separated v = comma_separated w -> v = w.
Proof.
  destruct v as [|x v], w as [|y w]; intro E.
  - reflexivity.
  - symmetry in E. now apply comma_separated_nonempty in E.
  - now apply comma_separated_nonempty in E.
  - rewrite !comma_separated_cons in E.
    destruct (number_then_break _ _ _ _ (string_of_Z_chars x) (string_of_Z_chars y)
                (comma_led_breaks v) (comma_led_breaks w) E) as [Hxy Hvw].
    apply string_of_Z_inj in Hxy. apply comma_led_inj in Hvw. now subst.
Qed.

Lemma append_inv_last (a : string) :
  forall (b : string) (c : ascii),
    (a ++ String c EmptyString)%string = (b ++ String c EmptyString)%string -> a = b.
Proof.
  induction a as [|x a IH]; intros [|y b] c E; simpl in E.
  - reflexivity.
  - injection E as _ E. destruct b; discriminate E.
  - injection E as _ E. destruct a; discriminate E.
  - injection E as -> E. f_equal. exact (IH b c E).
Qed.

(* ------------------------------------------------------------------ *)
(** ** [display] on any fuel *)

(** With too little fuel the loop of [display] is cut short. *)
Lemma display_loop_short (suf : list Z) :
  forall (pre : list Z) (fuel : nat) (out : ostream),
    (fuel <= List.length suf)%nat ->
    Vector.size (pre ++ suf) <= INT_MAX ->
    display_loop fuel (pre ++ suf) (Z.of_nat (List.length pre)) out = OutOfFuel.
Proof.
  induction suf as [|x suf IH]; intros pre fuel out Hfuel Hsize;
    (destruct fuel as [|fuel]; [reflexivity|]); simpl in Hfuel; [lia|].
  assert (Hlen : Z.of_nat (List.length pre) < INT_MAX).
  { unfold Vector.size in Hsize. rewrite length_app in Hsize.
    simpl List.length in Hsize. lia. }
  simpl display_loop.
  rewrite size_t_of_int_small by lia.
  assert (Hin : (Z.of_nat (List.length pre) <? Vector.size (pre ++ x :: suf)) = true).
  { apply Z.ltb_lt. unfold Vector.size. rewrite length_app. simpl List.length. lia. }
  rewrite Hin.
  unfold bind at 1 2 3 4. unfold lift.
  rewrite at_app_middle.
  assert (Hsep : exists o,
             (if negb (Z.of_nat (List.length pre) =? 0) then put "," else ret tt) out
             = Ok (tt, o)).
  { destruct (negb (Z.of_nat (List.length pre) =? 0)); eexists; reflexivity. }
  destruct Hsep as [o ->].
  cbv beta iota delta [rbind put_int put].
  unfold int_succ. apply Z.ltb_lt in Hlen. rewrite Hlen.
  cbv beta iota.
  specialize (IH (pre ++ [x])%list fuel).
  rewrite <- app_assoc, length_app in IH. simpl in IH.
  replace (Z.of_nat (List.length pre + 1)) with (Z.of_nat (List.length pre) + 1) in IH by lia.
  apply IH; [lia|assumption].
Qed.

Lemma display_short (fuel : nat) (v : Vector.t) (out : ostream) :
  (fuel <= List.length v)%nat ->
  Vector.size v <= INT_MAX ->
  display fuel v out = OutOfFuel.
Proof.
  intros Hfuel Hsize. unfold display, bind.
  change (display_loop fuel v 0 out)
    with (display_loop fuel ([] ++ v) (Z.of_nat (List.length (@nil Z))) out).
  now rewrite display_loop_short.
Qed.

(** Every outcome of [display], by the size of the vector and the fuel. *)
Lemma display_outcome (fuel : nat) (v : Vector.t) (out : ostream) :
  display fuel v out
  = if INT_MAX <? Vector.size v
    then (if INT_MAX <? Z.of_nat fuel then Undefined else OutOfFuel)
    else if (List.length v <? fuel)%nat
         then Ok (tt, (out ++ comma_separated v ++ nl)%string)
         else OutOfFuel.
Proof.
  destruct (Z.ltb_spec INT_MAX (Vector.size v)) as [Hbig|Hfit].
  - now apply display_overflow.
  - destruct (Nat.ltb_spec (List.length v) fuel) as [Hfuel|Hfuel].
    + now apply display_ok.
    + now apply display_short.
Qed.

(* ------------------------------------------------------------------ *)
(** ** What the remove-even loop keeps *)

Lemma is_even_even (x : Z) : is_even x = Z.even x.
Proof. exact (int_rem_2_even x). Qed.

Lemma odd_elements_filter (v : Vector.t) :
  odd_elements v = filter (fun x => negb (is_even x)) v.
Proof.
  unfold odd_elements. apply filter_ext. intro x. now rewrite is_even_even.
Qed.

Lemma count_occ_filter (p : Z -> bool) (v : list Z) (x : Z) :
  count_occ Z.eq_dec (filter p v) x
  = if p x then count_occ Z.eq_dec v x else O.
Proof.
  induction v as [|y v IH]; simpl.
  - now destruct (p x).
  - destruct (p y) eqn:Ey; simpl; destruct (Z.eq_dec y x) as [->|Hne];
      rewrite IH; try reflexivity.
    + now rewrite Ey.
    + now rewrite Ey.
Qed.

Lemma filter_split_length (p : Z -> bool) (v : list Z) :
  (List.length (filter (fun x => negb (p x)) v) + List.length (filter p v)
   = List.length v)%nat.
Proof.
  induction v as [|y v IH]; simpl; [reflexivity|].
  destruct (p y); simpl; lia.
Qed.

Lemma filter_twice (p : Z -> bool) (v : list Z) :
  filter p (filter p v) = filter p v.
Proof.
  induction v as [|y v IH]; simpl; [reflexivity|].
  destruct (p y) eqn:E; simpl; [rewrite E; now f_equal|assumption].
Qed.

Lemma filter_same (p : Z -> bool) (v : list Z) :
  filter p v = v <-> forall x, In x v -> p x = true.
Proof.
  induction v as [|y v IH]; simpl.
  - split; [intros _ x []|reflexivity].
  - destruct (p y) eqn:E; split.
    + intros H x [<-|Hx]; [assumption|]. injection H as H. now apply IH.
    + intro H. f_equal. apply IH. intros x Hx. apply H. now right.
    + intro H. exfalso.
      assert (Hle := filter_split_length p v).
      apply (f_equal (@List.length Z)) in H. simpl in H. lia.
    + intro H. specialize (H y (or_introl eq_refl)). congruence.
Qed.

(** Whatever fuel it runs on, the loop never returns anything but the
    vector without its even elements. *)
Lemma remove_even_inv (fuel : nat) (v r : Vector.t) :
  remove_even fuel v = Ok r ->
  (List.length v < fuel)%nat /\ r = odd_elements v.
Proof.
  intro H. destruct (Nat.lt_ge_cases (List.length v) fuel) as [Hlt|Hge].
  - rewrite remove_even_enough in H by assumption. injection H as <-. now split.
  - rewrite remove_even_cut in H by assumption. discriminate.
Qed.

Lemma odd_elements_length (v : Vector.t) :
  (List.length (odd_elements v) <= List.length v)%nat.
Proof.
  rewrite odd_elements_filter.
  assert (H := filter_split_length is_even v). lia.
Qed.

Lemma find_if_ext (p q : Z -> bool) (v : list Z) :
  (forall x, p x = q x) -> Algorithm.find_if v p = Algorithm.find_if v q.
Proof.
  intro H. induction v as [|y v IH]; [reflexivity|].
  rewrite !find_if_cons, H, IH. reflexivity.
Qed.

Lemma int_of_ptrdiff_small (d : Z) :
  INT_MIN <= d <= INT_MAX -> int_of_ptrdiff d = d.
Proof.
  intro H. unfold int_of_ptrdiff, INT_MIN, INT_MAX in *.
  rewrite Z.mod_small; [lia|].
  change (2 ^ 32) with 4294967296. lia.
Qed.

Lemma count_occ_le_length (v : list Z) (x : Z) :
  (count_occ Z.eq_dec v x <= List.length v)%nat.
Proof.
  induction v as [|y v IH]; simpl; [lia|].
  destruct (Z.eq_dec y x); lia.
Qed.

Lemma comma_trailed_concat (v : list Z) :
  comma_trailed v
  = String.concat "" (map (fun x => (string_of_Z x ++ ", ")%string) v).
Proof.
  induction v as [|x v IH]; [reflexivity|].
  change (comma_trailed (x :: v))
    with (string_of_Z x ++ ", " ++ comma_trailed v)%string.
  rewrite IH. destruct v as [|y v].
  - reflexivity.
  - set (rest := map (fun x => (string_of_Z x ++ ", ")%string) (y :: v)).
    change (String.concat "" (map (fun x => (string_of_Z x ++ ", ")%string) (x :: y :: v)))
      with ((string_of_Z x ++ ", ") ++ String.concat "" rest)%string.
    now rewrite append_assoc.
Qed.

(* ------------------------------------------------------------------ *)
(** ** Properties beyond the claims *)

(** X1. The loop of lines 81-83 walks any vector from [begin()] to
    [end()] without leaving it: whatever the vector holds, it writes every
    element in order, each followed by a comma and a space (the last one
    too), and the line ends with a newline. No bound on the size is
    needed, the loop counts with an iterator. *)
Theorem for_print_writes_every_element :
  forall (fuel : nat) (ages_vector : Vector.t) (out : ostream),
    (List.length ages_vector < fuel)%nat ->
    main_for_print fuel ages_vector out
    = Ok (tt, (out ++ "Output vector elements using for loop and iterator : "
               ++ String.concat ""
                    (map (fun x => (string_of_Z x ++ ", ")%string) ages_vector)
               ++ nl)%string).
Proof.
  intros fuel ages_vector out H.
  unfold main_for_print, bind, endl, put.
  rewrite print_loop_ok by assumption.
  rewrite comma_trailed_concat. now rewrite !append_assoc.
Qed.

Lemma for_print_writes_every_element_witness :
  main_for_print 3 [7; -2] ""%string
  = Ok (tt, ("Output vector elements using for loop and iterator : 7, -2, " ++ nl)%string).
Proof.
  refine (for_print_writes_every_element 3 [7; -2] ""%string _).
  simpl. lia.
Defined.

(** X2. Lines 55-70 need a vector of at least two elements. On such a
    vector they print the first element and then the second; on an empty
    vector the first dereference is undefined, and on a one-element vector
    the step to [end()] succeeds but the second dereference is
    undefined. *)
Theorem iterator_demo_needs_two :
  (forall (x y : Z) (rest : list Z) (out : ostream),
      main_iterator (x :: y :: rest) out
      = Ok (tt, (out
                 ++ "Dereferencing the Iterator to get first element in vector, value = "
                 ++ string_of_Z x ++ nl
                 ++ "Increment by one (iter++;) Dereferencing the Iterator to get value = "
                 ++ string_of_Z y ++ nl)%string))
  /\ (forall out : ostream, main_iterator [] out = Undefined)
  /\ (forall (x : Z) (out : ostream),
         Vector.incr [x] (Vector.begin_ [x]) = Ok (Vector.end_ [x])
         /\ main_iterator [x] out = Undefined)
  /\ (forall (v : Vector.t) (out : ostream),
         (exists line, main_iterator v out = Ok line) <-> 2 <= Vector.size v).
Proof.
  assert (Hok : forall (x y : Z) (rest : list Z) (out : ostream),
             main_iterator (x :: y :: rest) out
             = Ok (tt, (out
                 ++ "Dereferencing the Iterator to get first element in vector, value = "
                 ++ string_of_Z x ++ nl
                 ++ "Increment by one (iter++;) Dereferencing the Iterator to get value = "
                 ++ string_of_Z y ++ nl)%string)).
  { intros x y rest out.
    unfold main_iterator, bind, lift, endl, put_int, put. simpl.
    now rewrite !append_assoc. }
  split; [exact Hok|]. split; [reflexivity|]. split; [now split|].
  intros v out. unfold Vector.size. split.
  - intros [line H]. destruct v as [|x [|y rest]]; try discriminate H.
    simpl List.length. lia.
  - intro H. destruct v as [|x [|y rest]]; simpl in H; try lia.
    eexists. apply Hok.
Qed.

Lemma iterator_demo_needs_two_witness :
  exists line, main_iterator [18; 17; 21; 18; 21] ""%string = Ok line.
Proof.
  destruct iterator_demo_needs_two as (_ & _ & _ & Hiff).
  apply (proj2 (Hiff [18; 17; 21; 18; 21] ""%string)).
  unfold Vector.size. simpl. lia.
Defined.

(** X3. Lines 127-131 need a vector of at least three elements. On such a
    vector (short enough for [display]) they print it, erase the element
    at index 2, print what is left and leave the first two elements
    followed by everything after the third; on a vector of two elements or
    fewer erasing at [begin() + 2] is undefined. *)
Theorem erase_third_needs_three :
  forall (fuel : nat) (ages_vector : Vector.t) (out : ostream),
    (List.length ages_vector < fuel)%nat ->
    Vector.size ages_vector <= INT_MAX ->
    (forall (a b c : Z) (rest : list Z),
        ages_vector = a :: b :: c :: rest ->
        main_erase_third fuel ages_vector out
        = Ok (a :: b :: rest,
              (out ++ "Vector content before erasing the third element" ++ nl
               ++ comma_separated (a :: b :: c :: rest) ++ nl
               ++ "Vector content AFTER erasing the third element" ++ nl
               ++ comma_separated (a :: b :: rest) ++ nl)%string))
    /\ (Vector.size ages_vector <= 2 ->
        main_erase_third fuel ages_vector out = Undefined).
Proof.
  intros fuel ages_vector out Hfuel Hsize. split.
  - intros a b c rest ->.
    unfold main_erase_third, bind, endl, put, ret, lift.
    rewrite display_ok by assumption.
    change (Vector.advance (a :: b :: c :: rest) (Vector.begin_ (a :: b :: c :: rest)) 2%nat)
      with (@Ok Vector.iterator 2%nat).
    cbv beta iota delta [rbind].
    change (Vector.erase (a :: b :: c :: rest) 2%nat)
      with (@Ok (Vector.t * Vector.iterator) (a :: b :: rest, 2%nat)).
    cbv beta iota delta [rbind fst].
    rewrite display_ok.
    + now rewrite !append_assoc.
    + simpl in *. lia.
    + unfold Vector.size in *. simpl List.length in *. lia.
  - intro Hshort.
    unfold main_erase_third, bind, endl, put, ret, lift.
    rewrite display_ok by assumption.
    destruct ages_vector as [|a [|b [|c rest]]]; try reflexivity.
    unfold Vector.size in Hshort. simpl List.length in Hshort. lia.
Qed.

Lemma erase_third_needs_three_witness :
  main_erase_third 5 [18; 17; 21; 18] ""%string
  = Ok ([18; 17; 18],
        ("Vector content before erasing the third element" ++ nl
         ++ "18,17,21,18" ++ nl
         ++ "Vector content AFTER erasing the third element" ++ nl
         ++ "18,17,18" ++ nl)%string)
  /\ main_erase_third 5 [18; 17] ""%string = Undefined.
Proof.
  split.
  - refine (proj1 (erase_third_needs_three 5 [18; 17; 21; 18] ""%string _ _)
                  18 17 21 [18] eq_refl).
    + simpl. lia.
    + unfold Vector.size, INT_MAX. simpl. lia.
  - refine (proj2 (erase_third_needs_three 5 [18; 17] ""%string _ _) _).
    + simpl. lia.
    + unfold Vector.size, INT_MAX. simpl. lia.
    + unfold Vector.size. simpl. lia.
Defined.

Lemma skipn_exact (pre suf : list Z) :
  skipn (List.length pre) (pre ++ suf) = suf.
Proof. induction pre as [|y pre IH]; [reflexivity|exact IH]. Qed.

Lemma firstn_exact (pre suf : list Z) :
  firstn (List.length pre) (pre ++ suf) = pre.
Proof.
  induction pre as [|y pre IH]; [reflexivity|].
  simpl. now rewrite IH.
Qed.

Lemma snoc_split (pre suf : list Z) (x : Z) :
  (pre ++ x :: suf)%list = ((pre ++ [x]) ++ suf)%list
  /\ S (List.length pre) = List.length (pre ++ [x]).
Proof.
  split; [now rewrite <- app_assoc|].
  rewrite length_app. simpl. lia.
Qed.

(** X4. A pass through the body of the loop (lines 150-153) moves on to
    exactly the next element, whether it erased the current one or
    stepped over it: what lies from the new iterator on is what lay after
    the current element before the pass, so the next pass examines the
    element that followed and none is skipped or examined twice. What
    lies before the new iterator is what lay before the old one, followed
    by the current element when it is odd. This is the use of the
    iterator [erase] returns that the comment of lines 140-145
    describes. *)
Theorem loop_body_moves_to_next :
  forall (ages_vector v' : Vector.t) (iter iter' : Vector.iterator),
    remove_even_body ages_vector iter = Ok (v', iter') ->
    skipn iter' v' = skipn (S iter) ages_vector
    /\ Vector.deref v' iter' = Vector.deref ages_vector (S iter)
    /\ (iter' = Vector.end_ v' <-> S iter = Vector.end_ ages_vector)
    /\ exists x : Z,
         Vector.deref ages_vector iter = Ok x
         /\ firstn iter' v'
            = (firstn iter ages_vector ++ if is_even x then [] else [x])%list.
Proof.
  intros v v' it it' H.
  assert (Hlt : (it < List.length v)%nat).
  { destruct (Nat.lt_ge_cases it (List.length v)) as [Hlt|Hge]; [assumption|].
    unfold remove_even_body in H.
    apply deref_undefined in Hge. rewrite Hge in H. discriminate. }
  destruct (split_at v it Hlt) as (pre & x & suf & -> & <-).
  rewrite remove_even_body_at in H.
  destruct (snoc_split pre suf x) as [Hv Hs].
  assert (Hahead : skipn (S (List.length pre)) (pre ++ x :: suf) = suf).
  { rewrite Hv, Hs. apply skipn_exact. }
  assert (Hnext : Vector.deref (pre ++ x :: suf) (S (List.length pre))
                  = Vector.deref (pre ++ suf) (List.length pre)).
  { unfold Vector.deref. rewrite !nth_error_app2 by lia.
    replace (S (List.length pre) - List.length pre)%nat with 1%nat by lia.
    now rewrite Nat.sub_diag. }
  rewrite <- is_even_even in H.
  destruct (is_even x) eqn:E; injection H as <- <-.
  - rewrite Hahead. split; [apply skipn_exact|]. split; [now symmetry|].
    split; [unfold Vector.end_; rewrite !length_app; simpl; lia|].
    exists x. split; [apply deref_app|].
    now rewrite E, !firstn_exact, app_nil_r.
  - split; [reflexivity|]. split; [reflexivity|]. split; [tauto|].
    exists x. split; [apply deref_app|].
    rewrite E, firstn_exact. rewrite Hv at 1. rewrite Hs. apply firstn_exact.
Qed.

Lemma loop_body_moves_to_next_witness :
  skipn 0 [17; 21; 18; 21] = skipn 1 [18; 17; 21; 18; 21]
  /\ skipn 2 [18; 17; 21; 18; 21] = skipn 2 [18; 17; 21; 18; 21].
Proof.
  split.
  - exact (proj1 (loop_body_moves_to_next
                    [18; 17; 21; 18; 21] [17; 21; 18; 21] 0%nat 0%nat eq_refl)).
  - exact (proj1 (loop_body_moves_to_next
                    [18; 17; 21; 18; 21] [18; 17; 21; 18; 21] 1%nat 2%nat eq_refl)).
Defined.

(** X5. With fuel beyond the length the remove-even loop of lines 148-154
    returns, for any vector, the elements [is_even] rejects, in their
    order: no element of the result is even, every odd value occurs as
    often as before, the size drops by the number of even elements, a
    vector without even elements comes back unchanged (and only such a
    vector does), and running the loop on its own result changes
    nothing. *)
Theorem remove_even_keeps_the_odd :
  forall (fuel : nat) (ages_vector : Vector.t),
    (List.length ages_vector < fuel)%nat ->
    exists result : Vector.t,
      remove_even fuel ages_vector = Ok result
      /\ result = filter (fun x => negb (is_even x)) ages_vector
      /\ (forall x, In x result -> In x ages_vector /\ is_even x = false)
      /\ (forall x, is_even x = false ->
                    count_occ Z.eq_dec result x = count_occ Z.eq_dec ages_vector x)
      /\ Vector.size result
         = Vector.size ages_vector - Algorithm.count_if ages_vector is_even
      /\ (result = ages_vector <-> forall x, In x ages_vector -> is_even x = false)
      /\ remove_even fuel result = Ok result.
Proof.
  intros fuel v Hfuel. exists (odd_elements v).
  split; [now apply remove_even_enough|].
  rewrite odd_elements_filter.
  split; [reflexivity|]. split; [|split; [|split; [|split]]].
  - intros x Hx. apply filter_In in Hx. destruct Hx as [Hin Hodd].
    split; [assumption|]. now apply negb_true_iff.
  - intros x Hx. rewrite count_occ_filter. now rewrite Hx.
  - unfold Vector.size, Algorithm.count_if.
    rewrite count_if_from_filter.
    assert (H := filter_split_length is_even v). lia.
  - rewrite filter_same. split; intros H x Hx; specialize (H x Hx).
    + now apply negb_true_iff.
    + now rewrite H.
  - rewrite <- odd_elements_filter.
    rewrite remove_even_enough.
    + f_equal. rewrite !odd_elements_filter. apply filter_twice.
    + assert (H := odd_elements_length v). lia.
Qed.

Lemma remove_even_keeps_the_odd_witness :
  exists result : Vector.t,
    remove_even 6 [4; 7; 7; -2; 9] = Ok result
    /\ result = filter (fun x => negb (is_even x)) [4; 7; 7; -2; 9].
Proof.
  destruct (remove_even_keeps_the_odd 6 [4; 7; 7; -2; 9]) as (r & Hrun & Hr & _).
  - simpl. lia.
  - exists r. split; assumption.
Defined.

(** X6. Lines 147-156 compose the loop with [display]: for any vector
    short enough for [display] they return the vector without its even
    elements and print exactly those elements, comma-separated, after the
    two fixed texts. *)
Theorem remove_even_then_display :
  forall (fuel : nat) (ages_vector : Vector.t) (out : ostream),
    (List.length ages_vector < fuel)%nat ->
    Vector.size ages_vector <= INT_MAX ->
    main_remove_even fuel ages_vector out
    = Ok (filter (fun x => negb (is_even x)) ages_vector,
          (out ++ "Iterating over vector to remove even elements" ++ nl
           ++ "After removal of even elements vector contains : "
           ++ comma_separated (filter (fun x => negb (is_even x)) ages_vector)
           ++ nl)%string).
Proof.
  intros fuel v out Hfuel Hsize.
  rewrite <- odd_elements_filter.
  assert (Hlen := odd_elements_length v).
  unfold main_remove_even, bind, endl, put, ret, lift.
  rewrite remove_even_enough by assumption.
  cbv beta iota delta [rbind].
  rewrite display_ok.
  - now rewrite !append_assoc.
  - lia.
  - unfold Vector.size in *. lia.
Qed.

Lemma remove_even_then_display_witness :
  main_remove_even 4 [6; 5; 8] ""%string
  = Ok ([5],
        ("Iterating over vector to remove even elements" ++ nl
         ++ "After removal of even elements vector contains : 5" ++ nl)%string).
Proof.
  refine (remove_even_then_display 4 [6; 5; 8] ""%string _ _).
  - simpl. lia.
  - unfold Vector.size, INT_MAX. simpl. lia.
Defined.

(** X7. Lines 199-203 report an even value exactly when the vector holds
    one: with an even element the "found" text is written, without one
    the "NO even values found" text. In particular, on whatever the
    remove-even loop returns, the search finds nothing. *)
Theorem find_if_even_message :
  (forall (ages_vector : Vector.t) (out : ostream),
      (exists x, In x ages_vector /\ is_even x = true) ->
      main_find_if ages_vector out
      = Ok (tt, (out ++ " found one value that satisfied the is_even lambda expression "
                 ++ nl)%string))
  /\ (forall (ages_vector : Vector.t) (out : ostream),
         (forall x, In x ages_vector -> is_even x = false) ->
         main_find_if ages_vector out
         = Ok (tt, (out ++ "NO even values found" ++ nl)%string))
  /\ (forall (fuel : nat) (ages_vector result : Vector.t) (out : ostream),
         remove_even fuel ages_vector = Ok result ->
         main_find_if result out
         = Ok (tt, (out ++ "NO even values found" ++ nl)%string)).
Proof.
  assert (Hnone : forall (v : Vector.t) (out : ostream),
             (forall x, In x v -> is_even x = false) ->
             main_find_if v out = Ok (tt, (out ++ "NO even values found" ++ nl)%string)).
  { intros v out H. unfold main_find_if, Vector.end_.
    apply (find_if_end v is_even) in H. unfold is_even in H. rewrite H.
    rewrite Nat.eqb_refl. unfold bind, endl, put. cbv beta iota delta [negb].
    now rewrite append_assoc. }
  split; [|split; [exact Hnone|]].
  - intros v out (x & Hin & Hx). unfold main_find_if, Vector.end_.
    destruct (Nat.eqb_spec (Algorithm.find_if v (fun i => int_rem i 2 =? 0))
                (List.length v)) as [E|E].
    + change (Algorithm.find_if v is_even = List.length v) in E.
      rewrite find_if_end in E. specialize (E x Hin). congruence.
    + unfold bind, put. cbv beta iota delta [negb]. now rewrite append_assoc.
  - intros fuel v r out H. apply Hnone.
    apply remove_even_inv in H. destruct H as [_ ->].
    rewrite odd_elements_filter. intros x Hx.
    apply filter_In in Hx. now apply negb_true_iff.
Qed.

Lemma find_if_even_message_witness :
  main_find_if [17; 21; 18] ""%string
  = Ok (tt, (" found one value that satisfied the is_even lambda expression " ++ nl)%string)
  /\ main_find_if [17; 21; 21] ""%string = Ok (tt, ("NO even values found" ++ nl)%string).
Proof.
  destruct find_if_even_message as (Hfound & _ & Hafter).
  split.
  - apply (Hfound [17; 21; 18] ""%string).
    exists 18. split; [simpl; tauto|reflexivity].
  - exact (Hafter 6%nat [18; 17; 21; 18; 21] [17; 21; 21] ""%string eq_refl).
Defined.

(** X8. The two tests of lines 170-179 always agree, because for an [int]
    "greater than 16" and "not less than 17" are the same: on every
    vector [all_of] with [i > 16] and [none_of] with [i < 17] return the
    same answer, so the driver writes either both affirmative texts (when
    every element exceeds 16, an empty vector included) or both negative
    ones (when some element is 16 or less). *)
Theorem all_of_and_none_of_agree :
  forall (ages_vector : Vector.t) (out : ostream),
    Algorithm.all_of ages_vector (fun i => i >? 16)
    = Algorithm.none_of ages_vector (fun i => i <? 17)
    /\ ((forall x, In x ages_vector -> 16 < x) ->
        main_all_none ages_vector out
        = Ok (tt, (out ++ "all_of() : All values in ages_vector are greater than 16" ++ nl
                   ++ "none_of() : None of the values in vector are less than 17" ++ nl)%string))
    /\ ((exists x, In x ages_vector /\ x <= 16) ->
        main_all_none ages_vector out
        = Ok (tt, (out ++ "all_of() : One or more values are not greater than 16" ++ nl
                   ++ "none_of() : One or more values are less than 17" ++ nl)%string)).
Proof.
  intros v out.
  assert (Hagree : Algorithm.all_of v (fun i => i >? 16)
                   = Algorithm.none_of v (fun i => i <? 17)).
  { unfold Algorithm.all_of, Algorithm.none_of, Algorithm.find_if_not.
    f_equal. apply find_if_ext. intro x.
    destruct (Z.gtb_spec x 16), (Z.ltb_spec x 17); simpl; try reflexivity; lia. }
  split; [exact Hagree|]. split.
  - intro H. unfold main_all_none. rewrite <- Hagree.
    replace (Algorithm.all_of v (fun i => i >? 16)) with true.
    + unfold bind, endl, put. now rewrite !append_assoc.
    + symmetry. apply all_of_forall. intros y Hy. specialize (H y Hy).
      apply Z.gtb_lt. lia.
  - intros (x & Hin & Hx). unfold main_all_none. rewrite <- Hagree.
    replace (Algorithm.all_of v (fun i => i >? 16)) with false.
    + unfold bind, endl, put. now rewrite !append_assoc.
    + symmetry.
      destruct (Algorithm.all_of v (fun i => i >? 16)) eqn:E; [|reflexivity].
      rewrite all_of_forall in E. specialize (E x Hin).
      apply Z.gtb_lt in E. lia.
Qed.

Lemma all_of_and_none_of_agree_witness :
  main_all_none [] ""%string
  = Ok (tt, ("all_of() : All values in ages_vector are greater than 16" ++ nl
             ++ "none_of() : None of the values in vector are less than 17" ++ nl)%string)
  /\ main_all_none [18; 16] ""%string
     = Ok (tt, ("all_of() : One or more values are not greater than 16" ++ nl
                ++ "none_of() : One or more values are less than 17" ++ nl)%string).
Proof.
  split.
  - refine (proj1 (proj2 (all_of_and_none_of_agree [] ""%string)) _).
    intros x [].
  - refine (proj2 (proj2 (all_of_and_none_of_agree [18; 16] ""%string)) _).
    exists 16. split; [simpl; tauto|lia].
Defined.

(** X9. The bounds-checked [at] of line 233 never throws: on no vector
    and with no fuel does [display] end in the [std::out_of_range]
    exception, because the loop condition of line 228 keeps the index
    below the size whenever [at] is called. *)
Theorem display_never_out_of_range :
  forall (fuel : nat) (vector_ref : Vector.t) (out : ostream),
    display fuel vector_ref out <> OutOfRange.
Proof.
  intros fuel v out. rewrite display_outcome.
  destruct (INT_MAX <? Vector.size v).
  - destruct (INT_MAX <? Z.of_nat fuel); discriminate.
  - destruct (List.length v <? fuel)%nat; discriminate.
Qed.

(** X10. Among vectors of at most [INT_MAX] elements, the line [display]
    writes tells the vector: if two such vectors leave the same stream
    behind, starting from the same stream, they are equal element by
    element. Within that size no two different vectors print alike, and
    only the empty vector prints as an empty line. *)
Theorem display_tells_the_vector :
  forall (fuel fuel' : nat) (v w : Vector.t) (out : ostream),
    (List.length v < fuel)%nat ->
    (List.length w < fuel')%nat ->
    Vector.size v <= INT_MAX ->
    Vector.size w <= INT_MAX ->
    display fuel v out = display fuel' w out ->
    v = w.
Proof.
  intros fuel fuel' v w out Hfv Hfw Hv Hw H.
  rewrite !display_ok in H by assumption.
  injection H as H. apply append_inv_head in H.
  unfold nl in H. apply append_inv_last in H.
  now apply comma_separated_inj.
Qed.

Lemma display_tells_the_vector_witness :
  [18; 17; 21] = [18; 17; 21].
Proof.
  refine (display_tells_the_vector 4 9 [18; 17; 21] [18; 17; 21]
            "ages: "%string _ _ _ _ eq_refl);
    try (simpl; lia); unfold Vector.size, INT_MAX; simpl; lia.
Defined.

(** X11. Lines 96-113 print the true counts for every vector of at most
    [INT_MAX] elements: the number of elements equal to 21, then the
    number of elements below 18. Within that size the conversion of the
    counts to [int] loses nothing. *)
Theorem counts_are_printed :
  forall (ages_vector : Vector.t) (out : ostream),
    Vector.size ages_vector <= INT_MAX ->
    main_counts ages_vector out
    = Ok (tt, (out ++ "Count of students aged 21 = "
               ++ string_of_Z (Z.of_nat (count_occ Z.eq_dec ages_vector 21)) ++ nl
               ++ "Count of students aged under 18 = "
               ++ string_of_Z (Z.of_nat (List.length (filter (fun i => (i <? 18)%Z) ages_vector)))
               ++ nl)%string).
Proof.
  intros v out Hsize. unfold Vector.size in Hsize.
  unfold main_counts, Algorithm.count, Algorithm.count_if.
  rewrite count_from_occ, count_if_from_filter. simpl Z.add.
  assert (H21 := count_occ_le_length v 21).
  assert (H18 := filter_split_length (fun i => i <? 18) v). cbv beta in H18.
  rewrite !int_of_ptrdiff_small by (unfold INT_MIN, INT_MAX in *; lia).
  unfold bind, endl, put_int, put. now rewrite !append_assoc.
Qed.

Lemma counts_are_printed_witness :
  main_counts [21; 3; 21; 21] ""%string
  = Ok (tt, ("Count of students aged 21 = 3" ++ nl
             ++ "Count of students aged under 18 = 1" ++ nl)%string).
Proof.
  refine (counts_are_printed [21; 3; 21; 21] ""%string _).
  unfold Vector.size, INT_MAX. simpl. lia.
Defined.

(** X12. Lines 186-194 report 17 exactly when the vector holds it: after
    the announcement they write "Found at least one value 17" when 17
    occurs and "NO value 17 in vector " when it does not, the empty
    vector included. *)
Theorem find_17_message :
  forall (ages_vector : Vector.t) (out : ostream),
    (In 17 ages_vector ->
     main_find ages_vector out
     = Ok (tt, (out ++ "Using find() to find value 17 in the vector." ++ nl
                ++ "Found at least one value 17" ++ nl)%string))
    /\ (~ In 17 ages_vector ->
        main_find ages_vector out
        = Ok (tt, (out ++ "Using find() to find value 17 in the vector." ++ nl
                   ++ "NO value 17 in vector " ++ nl)%string)).
Proof.
  intros v out. unfold main_find. split; intro H.
  - destruct (Nat.eqb_spec (Algorithm.find v 17) (Vector.end_ v)) as [E|E].
    + apply find_end_iff in E. contradiction.
    + unfold bind, endl, put. cbv beta iota delta [negb].
      now rewrite !append_assoc.
  - apply find_end_iff in H. rewrite H, Nat.eqb_refl.
    unfold bind, endl, put. cbv beta iota delta [negb].
    now rewrite !append_assoc.
Qed.

Lemma find_17_message_witness :
  main_find [] ""%string
  = Ok (tt, ("Using find() to find value 17 in the vector." ++ nl
             ++ "NO value 17 in vector " ++ nl)%string).
Proof.
  refine (proj2 (find_17_message [] ""%string) _).
  intros [].
Defined.

(** X13. The loop of lines 148-154 keeps its iterator valid. Entered at
    any position up to [end()], with fuel beyond the number of elements
    ahead, it returns the elements before the iterator untouched,
    followed by the odd ones among the rest; with less fuel it is only
    cut short. It never dereferences or erases at a position that holds
    no element: no run from a position within the vector ends in
    undefined behaviour or in an exception. *)
Theorem remove_even_loop_stays_valid :
  forall (fuel : nat) (ages_vector : Vector.t) (iter : Vector.iterator),
    (iter <= Vector.end_ ages_vector)%nat ->
    remove_even_loop fuel ages_vector iter
    = (if (List.length ages_vector - iter <? fuel)%nat
       then Ok (firstn iter ages_vector
                ++ filter (fun x => negb (is_even x)) (skipn iter ages_vector))%list
       else OutOfFuel)
    /\ remove_even_loop fuel ages_vector iter <> Undefined
    /\ remove_even_loop fuel ages_vector iter <> OutOfRange.
Proof.
  intros fuel v it Hit. unfold Vector.end_ in Hit.
  assert (Hlen : List.length (firstn it v) = it) by (rewrite length_firstn; lia).
  assert (Hrest : List.length (skipn it v) = (List.length v - it)%nat)
    by apply length_skipn.
  assert (Hrun : remove_even_loop fuel v it
                 = if (List.length v - it <? fuel)%nat
                   then Ok (firstn it v
                            ++ filter (fun x => negb (is_even x)) (skipn it v))%list
                   else OutOfFuel).
  { assert (Hok := remove_even_loop_from (skipn it v) (firstn it v) fuel).
    assert (Hcut := remove_even_loop_short (skipn it v) (firstn it v) fuel).
    rewrite firstn_skipn, Hlen, Hrest in Hok, Hcut.
    rewrite odd_elements_filter in Hok.
    destruct (Nat.ltb_spec (List.length v - it) fuel) as [Hfuel|Hfuel].
    - now apply Hok.
    - now apply Hcut. }
  split; [exact Hrun|].
  rewrite Hrun. destruct (List.length v - it <? fuel)%nat; split; discriminate.
Qed.

Lemma remove_even_loop_stays_valid_witness :
  remove_even_loop 3 [2; 4; 6; 7] 2%nat = Ok [2; 4; 7].
Proof.
  refine (proj1 (remove_even_loop_stays_valid 3 [2; 4; 6; 7] 2%nat _)).
  unfold Vector.end_. simpl. lia.
Defined.
